(** * nkms.client: path-derived key wrapping and the versioned container

    A shallow embedding of [nkms/client.py] (class [Client]) and the
    properties of its path splitting, header framing, key wrapping and
    decrypt-by-trial key search.

    Python values are modelled as the code uses them: [bytes] objects are
    lists of bytes, Python integers are [Z], [None]-able arguments are
    options, raised exceptions are the [Err] case of [result], named by
    their class.  The collaborators the client only calls (the
    proxy-re-encryption object [self._pre], the symmetric cipher class
    [self._symm], [msgpack], [sha3.keccak_256], [nacl.utils.random]) are
    interfaces; the client code is written once, over any implementation. *)

From Stdlib Require Import List ZArith Lia Bool.
From Stdlib.Strings Require Import String Byte.
Import ListNotations.

Local Open Scope Z_scope.

(** ** Python values *)

Abbreviation bytes := (list byte) (only parsing).

(** A bytes literal, written as a string. *)
Definition b (s : string) : bytes := list_byte_of_string s.

(** [len(x)] is a Python integer. *)
Definition len {A : Type} (l : list A) : Z := Z.of_nat (List.length l).

Definition byte_eqb (x y : byte) : bool := Byte.eqb x y.

Fixpoint bytes_eqb (x y : bytes) : bool :=
  match x, y with
  | [], [] => true
  | c :: x', d :: y' => byte_eqb c d && bytes_eqb x' y'
  | _, _ => false
  end.

(** An exception, identified by the name of its class. *)
Inductive exn : Type := Raise (cls : string).

Inductive result (A : Type) : Type :=
| Ok (a : A)
| Err (e : exn).
Arguments Ok {A} a.
Arguments Err {A} e.

Definition UnboundLocalError : exn := Raise "UnboundLocalError".
Definition OverflowError : exn := Raise "OverflowError".
Definition TypeError : exn := Raise "TypeError".

Definition bind {A B : Type} (m : result A) (f : A -> result B) : result B :=
  match m with
  | Ok a => f a
  | Err e => Err e
  end.

Declare Scope py_scope.
Delimit Scope py_scope with py.
Notation "x <- m ;; k" := (bind m (fun x => k))
  (at level 61, m at next level, right associativity) : py_scope.
Notation "' pat <- m ;; k" := (bind m (fun x => match x with pat => k end))
  (at level 61, pat pattern, m at next level, right associativity) : py_scope.
Local Open Scope py_scope.

(** What [msgpack.loads] can hand back, as far as the client tells the
    cases apart: [io.BytesIO] accepts [None] (an empty buffer) and a bytes
    object, and raises [TypeError] on any other value (int, str, list,
    map, ...). *)
Inductive pyobj : Type :=
| PyNone
| PyBytes (x : bytes)
| PyOther.

(** ** Integers and bytes *)

Definition Z_of_byte (x : byte) : Z := Z.of_N (Byte.to_N x).

Definition byte_of_Z (z : Z) : byte :=
  match Byte.of_N (Z.to_N (z mod 256)) with
  | Some x => x
  | None => x00
  end.

(** [int.from_bytes(bs, byteorder='big')] *)
Definition int_from_bytes (bs : bytes) : Z :=
  fold_left (fun acc x => acc * 256 + Z_of_byte x) bs 0.

(** The [n] low-order base-256 digits of [z], most significant first. *)
Fixpoint be_digits (n : nat) (z : Z) : bytes :=
  match n with
  | O => []
  | S n' => be_digits n' (z / 256) ++ [byte_of_Z z]
  end.

(** [z.to_bytes(n, byteorder='big')]: [OverflowError] on a negative
    integer and on one that does not fit [n] bytes. *)
Definition to_bytes (z : Z) (n : nat) : result bytes :=
  if (0 <=? z) && (z <? 256 ^ Z.of_nat n)
  then Ok (be_digits n z)
  else Err OverflowError.

(** ** [io.BytesIO] *)

(** A stream is the part of the buffer not read yet. *)
Definition BytesIO : Type := bytes.

(** [io.BytesIO(initial)] *)
Definition BytesIO_new (initial : pyobj) : result BytesIO :=
  match initial with
  | PyNone => Ok []
  | PyBytes x => Ok x
  | PyOther => Err TypeError
  end.

(** [f.read(n)]: at most [n] bytes, fewer at the end of the buffer, never
    an exception; a negative [n] reads everything. *)
Definition read (n : Z) (f : BytesIO) : bytes * BytesIO :=
  if n <? 0 then (f, [])
  else (firstn (Z.to_nat n) f, skipn (Z.to_nat n) f).

(** [f.read()] *)
Definition read_all (f : BytesIO) : bytes * BytesIO := (f, []).

(** ** [bytes.split] and [bytes.join] *)

Definition slash : byte := x2f.

(** [s.split(sep)] for a one-byte separator. *)
Fixpoint split (sep : byte) (s : bytes) : list bytes :=
  match s with
  | [] => [[]]
  | c :: s' =>
      if byte_eqb c sep then [] :: split sep s'
      else match split sep s' with
           | [] => [[c]]
           | w :: ws => (c :: w) :: ws
           end
  end.

(** [sep.join(l)] *)
Fixpoint join (sep : bytes) (l : list bytes) : bytes :=
  match l with
  | [] => []
  | [x] => x
  | x :: xs => x ++ sep ++ join sep xs
  end.

(** ** Path splitting *)

(** [Client._split_path] *)
Definition _split_path (path : bytes) : list bytes :=
  if bytes_eqb path [slash] then [[]]
  else
    let dirs := split slash path in
    map (fun i => join [slash] (firstn (i + 1) dirs)) (seq 0 (List.length dirs)).

(** The spec's wording of the general case, for comparison with the code:
    component[0], component[0]+sep+component[1], ..., the full path. *)
Fixpoint cumulative_from (acc : bytes) (components : list bytes) : list bytes :=
  match components with
  | [] => []
  | c :: cs => let acc' := acc ++ [slash] ++ c in acc' :: cumulative_from acc' cs
  end.

Definition cumulative_joins (components : list bytes) : list bytes :=
  match components with
  | [] => []
  | c :: cs => c :: cumulative_from c cs
  end.

(** ** The collaborators

    [nacl.utils.random], the cipher's nonce and the re-encryption scheme's
    blinding all draw from the operating system's entropy: a computation
    that draws takes the entropy state and returns the next one. *)

Class Random : Type := {
  entropy : Type;
  (** [nacl.utils.random(n)] *)
  utils_random : Z -> entropy -> bytes * entropy;
}.

Definition M `{Random} (A : Type) : Type := entropy -> result A * entropy.

Definition retM `{Random} {A : Type} (a : A) : M A := fun s => (Ok a, s).

Definition bindM `{Random} {A B : Type} (m : M A) (f : A -> M B) : M B :=
  fun s =>
    match m s with
    | (Ok a, s') => f a s'
    | (Err e, s') => (Err e, s')
    end.

(** A computation that draws nothing. *)
Definition lift `{Random} {A : Type} (r : result A) : M A := fun s => (r, s).

Notation "x <~ m ;; k" := (bindM m (fun x => k))
  (at level 61, m at next level, right associativity) : py_scope.
Notation "' pat <~ m ;; k" := (bindM m (fun x => match x with pat => k end))
  (at level 61, pat pattern, m at next level, right associativity) : py_scope.

(** [sha3.keccak_256(x).digest()] *)
Class Keccak : Type := {
  keccak_256 : bytes -> bytes;
}.

(** [msgpack.dumps] on a bytes object and [msgpack.loads]. *)
Class Msgpack : Type := {
  msgpack_dumps : bytes -> result bytes;
  msgpack_loads : bytes -> result pyobj;
}.

(** Modelled from the spec: the proxy re-encryption object [self._pre]
    (module [nkms.crypto.pre.bbs98], not among the sources), the spec's
    AsymmetricKeyCapability: generate a private key, derive a public key,
    encrypt to a public key, decrypt with a private key, compute a
    re-encryption token. *)
Class PRE `{Random} : Type := {
  gen_priv : entropy -> bytes * entropy;
  priv2pub : bytes -> bytes;
  pre_encrypt : bytes -> bytes -> M bytes;
  pre_decrypt : bytes -> bytes -> result bytes;
  pre_rekey : bytes -> bytes -> result bytes;
}.

(** Modelled from the spec: the cipher class [self._symm] (module
    [nkms.crypto.block.nacl], not among the sources), the spec's
    SymmetricCipherCapability: [self._symm(key)] builds a cipher object
    from a key, which encrypts with a nonce of its own and decrypts,
    failing on an authentication mismatch.  [symm_overhead] bounds the
    growth of a ciphertext over its plaintext (nonce and tag). *)
Class Symmetric `{Random} : Type := {
  cipher : Type;
  _symm : option bytes -> result cipher;
  cipher_encrypt : cipher -> bytes -> M bytes;
  cipher_decrypt : cipher -> pyobj -> result bytes;
  symm_overhead : Z;
}.

(** ** The client *)

Definition KEY_LENGTH : Z := 148.

Record Client : Type := {
  _priv_key : bytes;
  _pub_key : bytes;
}.

(** What [encrypt_key] returns: one wrapped key, or the list of them. *)
Inductive key_or_keys : Type :=
| OneKey (k : bytes)
| Keys (l : list bytes).

(** Truth value of an optional bytes argument: [None] and [b''] are false. *)
Definition truthy (x : option bytes) : bool :=
  match x with
  | None | Some [] => false
  | Some _ => true
  end.

Section ClientCode.
Context `{Rnd : Random} {Kec : Keccak} {Mp : Msgpack} {Pre : PRE} {Sym : Symmetric}.

(** [Client.__init__] *)
Definition __init__ : M Client :=
  fun s =>
    let (priv, s') := gen_priv s in
    (Ok {| _priv_key := priv; _pub_key := priv2pub priv |}, s').

Variable self : Client.

(** [Client._derive_path_key] *)
Definition _derive_path_key (path : bytes) (is_pub : bool) : bytes :=
  let key := keccak_256 (_priv_key self ++ path) in
  if is_pub then priv2pub key else key.

(** [Client._build_header]; [header] is bound only by the version branch. *)
Definition _build_header (enc_keys : list bytes) (version : Z)
  : result (bytes * Z) :=
  header <-
    (if version <? 1000 then
       vers_bytes <- to_bytes version 4 ;;
       num_keys_bytes <- to_bytes (len enc_keys) 4 ;;
       let keys := join [] enc_keys in
       header <- msgpack_dumps (vers_bytes ++ num_keys_bytes ++ keys) ;;
       Ok (Some header)
     else Ok None) ;;
  match header with
  | Some header => Ok (header, len header)
  | None => Err UnboundLocalError
  end.

(** [[header.read(Client.KEY_LENGTH) for _ in range(num_keys)]] *)
Fixpoint read_keys (num_keys : nat) (header : BytesIO) : list bytes * BytesIO :=
  match num_keys with
  | O => ([], header)
  | S n =>
      let (key, header) := read KEY_LENGTH header in
      let (keys, header) := read_keys n header in
      (key :: keys, header)
  end.

(** [Client._read_header]; [enc_keys] is bound only by the version branch. *)
Definition _read_header (header : bytes) : result (Z * list bytes) :=
  obj <- msgpack_loads header ;;
  header <- BytesIO_new obj ;;
  let (vers_bytes, header) := read 4 header in
  let version := int_from_bytes vers_bytes in
  enc_keys <-
    (if version <? 1000 then
       let (num_keys_bytes, header) := read 4 header in
       let num_keys := int_from_bytes num_keys_bytes in
       Ok (Some (fst (read_keys (Z.to_nat num_keys) header)))
     else Ok None) ;;
  match enc_keys with
  | Some enc_keys => Ok (version, enc_keys)
  | None => Err UnboundLocalError
  end.

(** [Client.encrypt_key] called without a path, as the loop over the
    subpaths calls it: the one wrapped key. *)
Definition encrypt_key_nopath (key : bytes) (pubkey : option bytes) : M bytes :=
  let pubkey :=
    match pubkey with
    | Some pubkey => if truthy (Some pubkey) then pubkey else _pub_key self
    | None => _pub_key self
    end in
  pre_encrypt pubkey key.

(** The loop of [encrypt_key] over the subpaths. *)
Fixpoint encrypt_subpaths (key : bytes) (subpaths : list bytes)
  (enc_keys : list bytes) : M (list bytes) :=
  match subpaths with
  | [] => retM enc_keys
  | subpath :: subpaths =>
      let path_pubkey := _derive_path_key subpath true in
      enc_key <~ encrypt_key_nopath key (Some path_pubkey) ;;
      encrypt_subpaths key subpaths (enc_keys ++ [enc_key])
  end.

(** [Client.encrypt_key] *)
Definition encrypt_key (key : bytes) (pubkey : option bytes)
  (path : option bytes) : M key_or_keys :=
  match path with
  | Some path =>
      let enc_keys := [] in
      let subpaths := _split_path path in
      enc_keys <~ encrypt_subpaths key subpaths enc_keys ;;
      retM (Keys enc_keys)
  | None =>
      enc_key <~ encrypt_key_nopath key pubkey ;;
      retM (OneKey enc_key)
  end.

(** [Client.decrypt_key] *)
Definition decrypt_key (enc_key : bytes) (pubkey : option bytes)
  (path : option bytes) (owner : option bytes) : result bytes :=
  let priv_key :=
    match path with
    | Some path => _derive_path_key path false
    | None => _priv_key self
    end in
  pre_decrypt priv_key enc_key.

(** [Client.grant] *)
Definition grant (pubkey : bytes) (path : option bytes) : result (option bytes) :=
  reenc_key <- pre_rekey (_priv_key self) pubkey ;;
  Ok None.

(** [Client.revoke] *)
Definition revoke (pubkey : bytes) (path : option bytes) : result (option bytes) :=
  Ok None.

(** [Client.list_permissions] *)
Definition list_permissions (pubkey path : option bytes) : result (option bytes) :=
  Ok None.

(** [Client.remove] *)
Definition remove (pubkey path : option bytes) : result (option bytes) :=
  Ok None.

(** [Client.encrypt_bulk] *)
Definition encrypt_bulk (data : bytes) (key : option bytes) : M bytes :=
  cipher <~ lift (_symm key) ;;
  cipher_encrypt cipher data.

(** [Client.decrypt_bulk] *)
Definition decrypt_bulk (edata : pyobj) (key : option bytes) : result bytes :=
  cipher <- _symm key ;;
  cipher_decrypt cipher edata.

(** [b''.join(enc_keys)] wants a list of bytes objects. *)
Definition as_keys (r : key_or_keys) : result (list bytes) :=
  match r with
  | Keys l => Ok l
  | OneKey _ => Err TypeError
  end.

Definition as_key (r : key_or_keys) : result bytes :=
  match r with
  | OneKey k => Ok k
  | Keys _ => Err TypeError
  end.

(** [Client.encrypt] *)
Definition encrypt (data : bytes) (path : option bytes) : M bytes :=
  fun s =>
    let (data_key, s) := utils_random 32 s in
    (edata <~ encrypt_bulk data (Some data_key) ;;
     ciphertext <~ lift (msgpack_dumps edata) ;;
     enc_keys <~
       (match path with
        | Some _ =>
            r <~ encrypt_key data_key None path ;;
            lift (as_keys r)
        | None =>
            r <~ encrypt_key data_key None path ;;
            k <~ lift (as_key r) ;;
            retM [k]
        end) ;;
     ' (header, header_length) <~ lift (_build_header enc_keys 100) ;;
     header_length_bytes <~ lift (to_bytes header_length 4) ;;
     let storage_data := header_length_bytes ++ header ++ ciphertext in
     retM storage_data) s.

(** The [for ... break] loop of [decrypt]: the value of [valid_key] when
    the loop is left. *)
Fixpoint search_valid_key (path : option bytes) (enc_keys : list bytes)
  (valid_key : option bytes) : result (option bytes) :=
  match enc_keys with
  | [] => Ok valid_key
  | enc_key :: enc_keys =>
      dec_key <- decrypt_key enc_key None path None ;;
      if len dec_key =? 32 then Ok (Some dec_key)
      else search_valid_key path enc_keys valid_key
  end.

(** [Client.decrypt]; [plaintext] is bound only by the version branch. *)
Definition decrypt (edata : bytes) (path : option bytes)
  (owner : option bytes) : result bytes :=
  let enc_file : BytesIO := edata in
  let (length_bytes, enc_file) := read 4 enc_file in
  let header_length := int_from_bytes length_bytes in
  let (header, enc_file) := read header_length enc_file in
  ' (version, enc_keys) <- _read_header header ;;
  ciphertext <- msgpack_loads (fst (read_all enc_file)) ;;
  plaintext <-
    (if version <? 1000 then
       valid_key <- search_valid_key path enc_keys None ;;
       plaintext <- decrypt_bulk ciphertext valid_key ;;
       Ok (Some plaintext)
     else Ok None) ;;
  match plaintext with
  | Some plaintext => Ok plaintext
  | None => Err UnboundLocalError
  end.

(** The wrapped keys a container holds: what [decrypt] reads from it
    before it touches the ciphertext. *)
Definition wrapped_keys (edata : bytes) : result (list bytes) :=
  let (length_bytes, enc_file) := read 4 edata in
  let header_length := int_from_bytes length_bytes in
  let (header, enc_file) := read header_length enc_file in
  ' (version, enc_keys) <- _read_header header ;;
  Ok enc_keys.

(** [enc_key] is an outcome of wrapping [key] to [pubkey]. *)
Definition wrapped_for (pubkey key enc_key : bytes) : Prop :=
  exists s s', pre_encrypt pubkey key s = (Ok enc_key, s').

(** The header [decrypt] cuts out of a container. *)
Definition header_slice (edata : bytes) : bytes :=
  fst (read (int_from_bytes (fst (read 4 edata))) (snd (read 4 edata))).

(** A wrapped key that unwraps, but not to a 32-byte value. *)
Definition nonconforming (path : option bytes) (enc_key : bytes) : Prop :=
  exists dec_key,
    decrypt_key enc_key None path None = Ok dec_key /\ len dec_key <> 32.

End ClientCode.

(** ** Opening a file *)

(** What the built-in [open] is given: a path or a file descriptor. *)
Inductive file_ref : Type :=
| FilePath (path : bytes)
| FileFd (fd : Z).

(** The built-in [open(file, mode=mode)] followed by [f.read()]: the
    content of the file, or the exception either raises.  The file may be
    [None], when the caller passed neither a descriptor nor a path. *)
Class Files : Type := {
  file_read : option file_ref -> string -> result pyobj;
}.

Section ClientFiles.
Context `{Rnd : Random} {Kec : Keccak} {Mp : Msgpack} {Pre : PRE} {Sym : Symmetric}.
Context {Fs : Files}.
Variable self : Client.

(** [fd or path]: a descriptor that is [None] or 0 is false. *)
Definition fd_or_path (fd : option Z) (path : option bytes) : option file_ref :=
  match fd with
  | Some n => if n =? 0 then option_map FilePath path else Some (FileFd n)
  | None => option_map FilePath path
  end.

(** [Client.open]; the data read goes to [decrypt], whose first step is
    [BytesIO(edata)]. *)
Definition open (pubkey path : option bytes) (mode : string) (fd : option Z)
  : result bytes :=
  let file_path := fd_or_path fd path in
  enc_data <- file_read file_path mode ;;
  edata <- BytesIO_new enc_data ;;
  decrypt self edata path None.

End ClientFiles.

(** ** Choosing the algorithms ([nkms/crypto/__init__.py]) *)

(** The values an algorithm description is made of; a dict keeps its items
    in insertion order. *)
#[warnings="-register-all"]
Inductive pyval : Type :=
| VNone
| VInt (z : Z)
| VBytes (x : bytes)
| VStr (s : string)
| VDict (items : list (string * pyval)).

Definition KeyError : exn := Raise "KeyError".
Definition AttributeError : exn := Raise "AttributeError".

(** [d[k]] on the items of a dict *)
Fixpoint dict_get (items : list (string * pyval)) (k : string) : result pyval :=
  match items with
  | [] => Err KeyError
  | (k', v) :: items => if String.eqb k' k then Ok v else dict_get items k
  end.

(** [v[k]] with a string [k]: only a dict can be indexed by it. *)
Definition subscript (v : pyval) (k : string) : result pyval :=
  match v with
  | VDict items => dict_get items k
  | _ => Err TypeError
  end.

(** [v.items()] *)
Definition dict_items (v : pyval) : result (list (string * pyval)) :=
  match v with
  | VDict items => Ok items
  | _ => Err AttributeError
  end.

(** [prefix + v] for a str [prefix] *)
Definition str_add (prefix : string) (v : pyval) : result string :=
  match v with
  | VStr s => Ok (prefix ++ s)%string
  | _ => Err TypeError
  end.

Definition is_none (v : pyval) : bool :=
  match v with
  | VNone => true
  | _ => false
  end.

(** [default_algorithm] *)
Definition default_algorithm : pyval :=
  VDict
    [("symmetric", VDict [("cipher", VStr "nacl")]);
     ("pre",
      VDict [("cipher", VStr "bbs98");
             ("curve", VInt 714);
             ("g", VBytes (b "1:A78WgHh03I38RcZO/FQe9SbmPVzQg+oehzR8QsGXOeqz"));
             ("m", VNone);
             ("n", VNone)])]%string.

(** [importlib.import_module] and the two names the code takes from the
    module it imports: the class [Cipher] and the class [PRE], called with
    keyword arguments. *)
Class Importer : Type := {
  py_module : Type;
  cipher_class : Type;
  pre_object : Type;
  import_module : string -> result py_module;
  module_Cipher : py_module -> result cipher_class;
  module_PRE : py_module -> list (string * pyval) -> result pre_object;
}.

Section Algorithms.
Context {Imp : Importer}.

(** [symmetric_from_algorithm] *)
Definition symmetric_from_algorithm (algorithm : pyval) : result cipher_class :=
  symm <- subscript algorithm "symmetric" ;;
  name <- subscript symm "cipher" ;;
  name <- str_add "nkms.crypto.block." name ;;
  module <- import_module name ;;
  module_Cipher module.

(** The dict comprehension of [pre_from_algorithm]. *)
Definition pre_kwargs (items : list (string * pyval)) : list (string * pyval) :=
  filter (fun kv => negb (String.eqb (fst kv) "cipher") && negb (is_none (snd kv)))
         items.

(** [pre_from_algorithm] *)
Definition pre_from_algorithm (algorithm : pyval) : result pre_object :=
  pre <- subscript algorithm "pre" ;;
  items <- dict_items pre ;;
  let kw := pre_kwargs items in
  pre <- subscript algorithm "pre" ;;
  name <- subscript pre "cipher" ;;
  name <- str_add "nkms.crypto.pre." name ;;
  module <- import_module name ;;
  module_PRE module kw.

End Algorithms.

(** ** Laws of the collaborators *)

Class RandomLaws `{Random} : Prop := {
  utils_random_len : forall n s, 0 <= n -> len (fst (utils_random n s)) = n;
}.

(** An envelope holds a bytes object shorter than 2^32 and gives it back;
    it is longer than its payload by a header of at most five bytes. *)
Class MsgpackLaws `{Msgpack} : Prop := {
  dumps_fits : forall x, len x < 2 ^ 32 -> exists e, msgpack_dumps x = Ok e;
  loads_dumps : forall x e, msgpack_dumps x = Ok e -> msgpack_loads e = Ok (PyBytes x);
  dumps_size : forall x e, msgpack_dumps x = Ok e -> len x < len e <= len x + 5;
}.

(** [msgpack.loads] wants exactly one value: it rejects an envelope cut
    short and an envelope followed by more bytes. *)
Class MsgpackStrict `{Msgpack} : Prop := {
  loads_truncated : forall x e n,
    msgpack_dumps x = Ok e -> (n < List.length e)%nat ->
    exists err, msgpack_loads (firstn n e) = Err err;
  loads_extra : forall x e t,
    msgpack_dumps x = Ok e -> t <> [] ->
    exists err, msgpack_loads (e ++ t) = Err err;
}.

(** A 32-byte key wrapped to a public key is a [KEY_LENGTH]-byte blob that
    the matching private key unwraps; a public key is not empty. *)
Class PRELaws `{PRE} : Prop := {
  priv2pub_nonempty : forall sk, priv2pub sk <> [];
  pre_roundtrip : forall sk m s, len m = 32 ->
    exists c s', pre_encrypt (priv2pub sk) m s = (Ok c, s')
                 /\ len c = KEY_LENGTH /\ pre_decrypt sk c = Ok m;
}.

(** A cipher built from a 32-byte key decrypts what it encrypted. *)
Class SymmetricLaws `{Symmetric} : Prop := {
  symm_roundtrip : forall k d s, len k = 32 ->
    exists c ct s', _symm (Some k) = Ok c
                    /\ cipher_encrypt c d s = (Ok ct, s')
                    /\ len ct <= len d + symm_overhead
                    /\ cipher_decrypt c (PyBytes ct) = Ok d;
}.

(** The keypair [__init__] leaves in a client. *)
Definition client_ok `{PRE} (self : Client) : Prop :=
  _pub_key self = priv2pub (_priv_key self).

(** ** A reference implementation of the collaborators

    Small executable stand-ins that satisfy the laws, to run the client on
    concrete inputs: [msgpack]'s bin family, a counter as entropy, a
    polynomial digest, key wrapping and a cipher that tag their output with
    the key they were made for. *)

Module Reference.

Definition ValueError : exn := Raise "ValueError".
Definition ExtraData : exn := Raise "ExtraData".
Definition CryptoError : exn := Raise "CryptoError".

(** [x] cut or zero-padded to [n] bytes. *)
Definition fit (n : nat) (x : bytes) : bytes := firstn n (x ++ repeat x00 n).

Definition digest (x : bytes) : bytes :=
  be_digits 32 (fold_left (fun acc c => acc * 257 + Z_of_byte c + 1) x 7).

Definition random : Random := {|
  entropy := Z;
  utils_random := fun n s => (be_digits (Z.to_nat n) (s * s + 7 * s + 11), s + 1);
|}.

Definition keccak : Keccak := {| keccak_256 := digest |}.

(** bin 8, bin 16, bin 32: a type byte, the length, the bytes. *)
Definition dumps (x : bytes) : result bytes :=
  let n := len x in
  if n <? 2 ^ 8 then Ok (xc4 :: be_digits 1 n ++ x)
  else if n <? 2 ^ 16 then Ok (xc5 :: be_digits 2 n ++ x)
  else if n <? 2 ^ 32 then Ok (xc6 :: be_digits 4 n ++ x)
  else Err ValueError.

Definition unpack_bin (width : nat) (rest : bytes) : result pyobj :=
  if (List.length rest <? width)%nat then Err ValueError
  else
    let n := int_from_bytes (firstn width rest) in
    let body := skipn width rest in
    if len body <? n then Err ValueError
    else if n <? len body then Err ExtraData
    else Ok (PyBytes body).

Definition loads (e : bytes) : result pyobj :=
  match e with
  | [] => Err ValueError
  | xc4 :: rest => unpack_bin 1 rest
  | xc5 :: rest => unpack_bin 2 rest
  | xc6 :: rest => unpack_bin 4 rest
  | xc0 :: rest => match rest with [] => Ok PyNone | _ => Err ExtraData end
  | _ :: _ => Ok PyOther
  end.

Definition msgpack : Msgpack := {| msgpack_dumps := dumps; msgpack_loads := loads |}.

(** A wrapped key: the 32-byte tag of the public key, the length of the
    message, the message padded to 115 bytes. *)
Definition wrap (pubkey m : bytes) : bytes :=
  fit 32 pubkey ++ [byte_of_Z (len m)] ++ fit 115 m.

Definition unwrap (priv2pub : bytes -> bytes) (sk c : bytes) : result bytes :=
  if bytes_eqb (firstn 32 c) (fit 32 (priv2pub sk))
  then Ok (firstn (Z.to_nat (Z_of_byte (nth 32 c x00))) (skipn 33 c))
  else Ok (firstn 31 (skipn 33 c)).

Definition pub_of (sk : bytes) : bytes := digest (sk ++ b "pub").

Definition keygen (s : Z) : bytes * Z := (be_digits 32 (s * s * s + 5), s + 1).

Definition wrap_to (pubkey m : bytes) (s : Z) : result bytes * Z :=
  (Ok (wrap pubkey m), s + 1).

Definition rekey (sk pubkey : bytes) : result bytes := Ok (digest (sk ++ pubkey)).

Definition pre : @PRE random :=
  Build_PRE random keygen pub_of wrap_to (unwrap pub_of) rekey.

(** A ciphertext: a 24-byte nonce, the 32-byte key as the tag, the data. *)
Definition box (key data : bytes) (s : Z) : bytes :=
  be_digits 24 (s + 3) ++ key ++ data.

Definition unbox (key : bytes) (edata : pyobj) : result bytes :=
  match edata with
  | PyBytes ct =>
      if (len ct <? 56) then Err CryptoError
      else if bytes_eqb (firstn 32 (skipn 24 ct)) key then Ok (skipn 56 ct)
      else Err CryptoError
  | _ => Err TypeError
  end.

Definition new_cipher (key : option bytes) : result bytes :=
  match key with
  | Some k => if len k =? 32 then Ok k else Err ValueError
  | None => Err TypeError
  end.

Definition seal (key data : bytes) (s : Z) : result bytes * Z :=
  (Ok (box key data s), s + 1).

Definition symmetric : @Symmetric random :=
  Build_Symmetric random bytes new_cipher seal unbox 56.

(** A client, as [__init__] builds it from the entropy state 1. *)
Definition client : Client :=
  {| _priv_key := be_digits 32 6; _pub_key := pub_of (be_digits 32 6) |}.

End Reference.

(** A file system with one file and an importer that knows the two modules
    of the default algorithm. *)
Module ReferenceSystem.

Definition FileNotFoundError : exn := Raise "FileNotFoundError".
Definition ModuleNotFoundError : exn := Raise "ModuleNotFoundError".

(** The container the reference client makes of [b'hello world!'] for the
    path [b'secret.bin']. *)
Definition stored : bytes :=
  match fst (@encrypt Reference.random Reference.keccak Reference.msgpack
               Reference.pre Reference.symmetric Reference.client
               (b "hello world!") (Some (b "secret.bin")) 0) with
  | Ok edata => edata
  | Err _ => []
  end.

(** The container it makes of the same payload without a path. *)
Definition stored_plain : bytes :=
  match fst (@encrypt Reference.random Reference.keccak Reference.msgpack
               Reference.pre Reference.symmetric Reference.client
               (b "hello world!") None 0) with
  | Ok edata => edata
  | Err _ => []
  end.

(** The file [secret.bin] holds [stored], the descriptor 3 is open on a
    file that holds [stored_plain]. *)
Definition read_file (file : option file_ref) (mode : string) : result pyobj :=
  match file with
  | Some (FilePath path) =>
      if bytes_eqb path (b "secret.bin") then
        if String.eqb mode "rb" then Ok (PyBytes stored) else Ok PyOther
      else Err FileNotFoundError
  | Some (FileFd fd) =>
      if fd =? 3 then Ok (PyBytes stored_plain) else Err (Raise "OSError")
  | None => Err TypeError
  end.

Definition files : Files := {| file_read := read_file |}.

Definition import_by_name (name : string) : result string :=
  if String.eqb name "nkms.crypto.pre.bbs98" then Ok name
  else if String.eqb name "nkms.crypto.block.nacl" then Ok name
  else Err ModuleNotFoundError.

Definition importer : Importer := {|
  py_module := string;
  cipher_class := string;
  pre_object := string * list (string * pyval);
  import_module := import_by_name;
  module_Cipher := fun m => Ok m;
  module_PRE := fun m kw => Ok (m, kw);
|}.

(** A key wrapping that raises on a blob made for another public key. *)
Definition raising_unwrap (sk c : bytes) : result bytes :=
  if bytes_eqb (firstn 32 c) (Reference.fit 32 (Reference.pub_of sk))
  then Reference.unwrap Reference.pub_of sk c
  else Err Reference.ValueError.

Definition raising_pre : @PRE Reference.random :=
  Build_PRE Reference.random Reference.keygen Reference.pub_of
            Reference.wrap_to raising_unwrap Reference.rekey.

(** A 32-byte key wrapped for the three prefixes of [b'/foo/bar'], the
    header of these wrapped keys, and the envelope of a payload sealed under
    the key. *)
Definition nested_key : bytes := repeat x2a 32.

Definition nested_wrapped (subpath : bytes) : bytes :=
  Reference.wrap
    (@_derive_path_key Reference.random Reference.keccak Reference.pre
       Reference.client subpath true)
    nested_key.

Definition nested_keys : list bytes :=
  [nested_wrapped (b ""); nested_wrapped (b "/foo"); nested_wrapped (b "/foo/bar")].

Definition nested_header : bytes :=
  match @_build_header Reference.msgpack nested_keys 100 with
  | Ok (header, _) => header
  | Err _ => []
  end.

Definition nested_sealed : bytes := Reference.box nested_key (b "hello world!") 0.

Definition nested_envelope : bytes :=
  match Reference.dumps nested_sealed with
  | Ok envelope => envelope
  | Err _ => []
  end.

(** A key wrapping that refuses a blob that is not [KEY_LENGTH] bytes. *)
Definition strict_unwrap (sk c : bytes) : result bytes :=
  if len c =? KEY_LENGTH then Reference.unwrap Reference.pub_of sk c
  else Err Reference.ValueError.

Definition strict_pre : @PRE Reference.random :=
  Build_PRE Reference.random Reference.keygen Reference.pub_of
            Reference.wrap_to strict_unwrap Reference.rekey.

End ReferenceSystem.

(** * Properties *)

(** ** Bytes and integers *)

Lemma bytes_eqb_eq (x y : bytes) : bytes_eqb x y = true <-> x = y.
Proof.
  revert y; induction x as [|c x IH]; intros [|d y]; simpl; split;
    try congruence; try reflexivity.
  - intros H. apply andb_true_iff in H as [Hc Hx].
    apply byte_dec_bl in Hc. apply IH in Hx. congruence.
  - intros H. injection H as -> ->. apply andb_true_iff. split.
    + now apply byte_dec_lb.
    + now apply IH.
Qed.

Lemma bytes_eqb_refl (x : bytes) : bytes_eqb x x = true.
Proof. now apply bytes_eqb_eq. Qed.

Lemma bytes_eqb_neq (x y : bytes) : x <> y -> bytes_eqb x y = false.
Proof.
  intros H. destruct (bytes_eqb x y) eqn:E; [|reflexivity].
  apply bytes_eqb_eq in E. contradiction.
Qed.

Lemma len_nonneg {A} (l : list A) : 0 <= len l.
Proof. unfold len. lia. Qed.

Lemma len_app {A} (l1 l2 : list A) : len (l1 ++ l2) = len l1 + len l2.
Proof. unfold len. rewrite length_app. lia. Qed.

Lemma len_cons {A} (a : A) (l : list A) : len (a :: l) = 1 + len l.
Proof. unfold len. simpl List.length. lia. Qed.

Lemma Z_of_byte_range (x : byte) : 0 <= Z_of_byte x < 256.
Proof.
  unfold Z_of_byte. pose proof (Byte.to_N_bounded x). lia.
Qed.

Lemma Z_of_byte_of_Z (z : Z) : Z_of_byte (byte_of_Z z) = z mod 256.
Proof.
  unfold Z_of_byte, byte_of_Z.
  assert (Hr : 0 <= z mod 256 < 256) by (apply Z.mod_pos_bound; lia).
  destruct (Byte.of_N (Z.to_N (z mod 256))) as [x|] eqn:E.
  - apply Byte.to_of_N in E. rewrite E. apply Z2N.id. lia.
  - apply Byte.of_N_None_iff in E.
    assert (Z.to_N (z mod 256) < 256)%N by (change 256%N with (Z.to_N 256); apply Z2N.inj_lt; lia).
    lia.
Qed.

Lemma int_from_bytes_snoc (l : bytes) (x : byte) :
  int_from_bytes (l ++ [x]) = int_from_bytes l * 256 + Z_of_byte x.
Proof. unfold int_from_bytes. now rewrite fold_left_app. Qed.

Lemma be_digits_length (n : nat) (z : Z) : List.length (be_digits n z) = n.
Proof.
  revert z; induction n as [|n IH]; intros z; simpl; [reflexivity|].
  rewrite length_app, IH. simpl. lia.
Qed.

Lemma int_from_be_digits (n : nat) (z : Z) :
  int_from_bytes (be_digits n z) = z mod 256 ^ Z.of_nat n.
Proof.
  revert z; induction n as [|n IH]; intros z.
  - simpl. now rewrite Z.mod_1_r.
  - cbn [be_digits]. rewrite int_from_bytes_snoc, IH, Z_of_byte_of_Z.
    rewrite Nat2Z.inj_succ, Z.pow_succ_r by lia.
    assert (Hp : 0 < 256 ^ Z.of_nat n) by (apply Z.pow_pos_nonneg; lia).
    rewrite Z.rem_mul_r by lia. lia.
Qed.

(** [to_bytes] and [int.from_bytes] are inverse on the integers that fit. *)
Lemma to_bytes_ok (z : Z) (n : nat) :
  0 <= z < 256 ^ Z.of_nat n ->
  to_bytes z n = Ok (be_digits n z) /\ int_from_bytes (be_digits n z) = z.
Proof.
  intros H. unfold to_bytes.
  replace (0 <=? z) with true by (symmetry; apply Z.leb_le; lia).
  replace (z <? 256 ^ Z.of_nat n) with true by (symmetry; apply Z.ltb_lt; lia).
  split; [reflexivity|]. rewrite int_from_be_digits. now apply Z.mod_small.
Qed.

Lemma to_bytes_overflow (z : Z) (n : nat) :
  z < 0 \/ 256 ^ Z.of_nat n <= z -> to_bytes z n = Err OverflowError.
Proof.
  intros H. unfold to_bytes.
  destruct (0 <=? z) eqn:E1; [|reflexivity].
  destruct (z <? 256 ^ Z.of_nat n) eqn:E2; [|reflexivity].
  apply Z.leb_le in E1. apply Z.ltb_lt in E2. lia.
Qed.

(** ** Reading from a stream *)

Lemma read_split (n : Z) (f : BytesIO) :
  fst (read n f) ++ snd (read n f) = f.
Proof.
  unfold read. destruct (n <? 0); simpl.
  - apply app_nil_r.
  - apply firstn_skipn.
Qed.

Lemma read_len (n : Z) (f : BytesIO) :
  0 <= n -> len (fst (read n f)) = Z.min n (len f).
Proof.
  intros H. unfold read, len.
  replace (n <? 0) with false by (symmetry; apply Z.ltb_ge; lia).
  simpl. rewrite length_firstn. lia.
Qed.

Lemma read_exact (x rest : bytes) :
  read (len x) (x ++ rest) = (x, rest).
Proof.
  unfold read, len.
  replace (Z.of_nat (List.length x) <? 0) with false
    by (symmetry; apply Z.ltb_ge; lia).
  rewrite Nat2Z.id. f_equal.
  - rewrite firstn_app, firstn_all, Nat.sub_diag. simpl. apply app_nil_r.
  - rewrite skipn_app, skipn_all, Nat.sub_diag. reflexivity.
Qed.

Lemma read_prefix (n : Z) (x rest : bytes) :
  len x = n -> read n (x ++ rest) = (x, rest).
Proof. intros <-. apply read_exact. Qed.

(** ** Splitting and joining *)

Lemma split_nonempty (sep : byte) (s : bytes) : split sep s <> [].
Proof.
  destruct s as [|c s]; simpl; [discriminate|].
  destruct (byte_eqb c sep); [discriminate|].
  destruct (split sep s); discriminate.
Qed.

Lemma join_cons (sep : bytes) (x : bytes) (l : list bytes) :
  l <> [] -> join sep (x :: l) = x ++ sep ++ join sep l.
Proof. destruct l; [contradiction|reflexivity]. Qed.

Lemma join_split (sep : byte) (s : bytes) : join [sep] (split sep s) = s.
Proof.
  induction s as [|c s IH]; [reflexivity|].
  pose proof (split_nonempty sep s) as Hne.
  cbn [split]. destruct (byte_eqb c sep) eqn:E.
  - apply byte_dec_bl in E. subst c.
    rewrite join_cons, IH by assumption. reflexivity.
  - destruct (split sep s) as [|w ws]; [contradiction|].
    destruct ws as [|w' ws].
    + simpl in *. now rewrite IH.
    + rewrite join_cons in * by discriminate.
      rewrite <- IH. reflexivity.
Qed.

Lemma split_no_sep (sep : byte) (s : bytes) :
  Forall (fun c => ~ In sep c) (split sep s).
Proof.
  induction s as [|c s IH]; simpl.
  - constructor; [intros []|constructor].
  - destruct (byte_eqb c sep) eqn:E.
    + constructor; [intros []|exact IH].
    + destruct (split sep s) as [|w ws]; [repeat constructor; intros [->|[]]|].
      * unfold byte_eqb in E. now rewrite byte_dec_lb in E.
      * inversion IH; subst. constructor; [|assumption].
        intros [->|Hin]; [|contradiction].
        unfold byte_eqb in E. now rewrite byte_dec_lb in E.
Qed.

Lemma join_snoc (sep : bytes) (l : list bytes) (c : bytes) :
  l <> [] -> join sep (l ++ [c]) = join sep l ++ sep ++ c.
Proof.
  induction l as [|x l IH]; [contradiction|]. intros _.
  destruct l as [|y l]; [reflexivity|].
  change (join sep ((x :: y :: l) ++ [c])) with (x ++ sep ++ join sep ((y :: l) ++ [c])).
  rewrite IH by discriminate.
  change (join sep (x :: y :: l)) with (x ++ sep ++ join sep (y :: l)).
  now rewrite <- !app_assoc.
Qed.

(** ** Path splitting *)

Lemma prefixes_cumulative (dirs pre : list bytes) :
  pre <> [] ->
  map (fun i => join [slash] (firstn (i + 1) (pre ++ dirs)))
      (seq (List.length pre) (List.length dirs))
  = cumulative_from (join [slash] pre) dirs.
Proof.
  revert pre; induction dirs as [|c cs IH]; intros pre Hne; [reflexivity|].
  cbn [List.length seq map cumulative_from]. f_equal.
  - replace (pre ++ c :: cs) with ((pre ++ [c]) ++ cs)
      by (now rewrite <- app_assoc).
    replace (List.length pre + 1)%nat with (List.length (pre ++ [c]))
      by (rewrite length_app; reflexivity).
    rewrite firstn_app, firstn_all, Nat.sub_diag. cbn [firstn].
    rewrite app_nil_r. now apply join_snoc.
  - specialize (IH (pre ++ [c])).
    rewrite <- app_assoc, length_app in IH. cbn [List.length app] in IH.
    rewrite Nat.add_1_r in IH. rewrite IH by (destruct pre; discriminate).
    now rewrite join_snoc.
Qed.

Lemma split_path_general (path : bytes) :
  path <> [slash] -> _split_path path = cumulative_joins (split slash path).
Proof.
  intros Hne. unfold _split_path. rewrite bytes_eqb_neq by assumption.
  pose proof (split_nonempty slash path) as Hs.
  destruct (split slash path) as [|c cs]; [contradiction|].
  cbn [List.length seq map cumulative_joins]. f_equal.
  change (cumulative_from c cs) with (cumulative_from (join [slash] [c]) cs).
  rewrite <- (prefixes_cumulative cs [c]) by discriminate.
  reflexivity.
Qed.

Lemma split_path_length (path : bytes) :
  path <> [slash] ->
  List.length (_split_path path) = List.length (split slash path).
Proof.
  intros Hne. unfold _split_path. rewrite bytes_eqb_neq by assumption.
  now rewrite length_map, length_seq.
Qed.

Lemma split_path_nonempty (path : bytes) : _split_path path <> [].
Proof.
  unfold _split_path. destruct (bytes_eqb path [slash]); [discriminate|].
  pose proof (split_nonempty slash path) as Hs.
  destruct (split slash path); [contradiction|]. discriminate.
Qed.

Example split_path_test :
  _split_path (b "/foo/bar/test.jpg")
  = [b ""; b "/foo"; b "/foo/bar"; b "/foo/bar/test.jpg"].
Proof. reflexivity. Qed.

(** C5. The path consisting of the separator alone has the single prefix
    [b''].  Any other path splits into its separator-free components, of
    which there is at least one and whose join is the path again, and its
    prefixes are the cumulative joins of these components, one per
    component, from the first component to the full path. *)
Theorem split_path_prefixes :
  _split_path (b "/") = [b ""]
  /\ forall path, path <> b "/" ->
       let components := split slash path in
       (1 <= List.length components)%nat
       /\ join (b "/") components = path
       /\ Forall (fun c => ~ In slash c) components
       /\ _split_path path = cumulative_joins components
       /\ List.length (_split_path path) = List.length components
       /\ last (_split_path path) [] = path.
Proof.
  split; [reflexivity|]. intros path Hne components.
  assert (Hs : components <> []) by apply split_nonempty.
  assert (Hj : join [slash] components = path) by apply join_split.
  repeat split.
  - destruct components; [contradiction|]. simpl. lia.
  - exact Hj.
  - apply split_no_sep.
  - now apply split_path_general.
  - now apply split_path_length.
  - unfold _split_path. rewrite bytes_eqb_neq by assumption.
    fold components.
    destruct (List.length components) as [|n] eqn:En.
    + destruct components; [contradiction|discriminate].
    + rewrite seq_S, map_app. cbn [map]. rewrite last_last.
      replace (0 + n + 1)%nat with (List.length components) by lia.
      now rewrite firstn_all.
Qed.

Lemma split_path_prefixes_witness :
  b "/foo/bar" <> b "/"
  /\ _split_path (b "/foo/bar") = cumulative_joins (split slash (b "/foo/bar"))
  /\ last (_split_path (b "/foo/bar")) [] = b "/foo/bar".
Proof.
  assert (H : b "/foo/bar" <> b "/") by discriminate.
  split; [exact H|].
  destruct (proj2 split_path_prefixes (b "/foo/bar") H)
    as (_ & _ & _ & Hc & _ & Hl).
  split; [exact Hc | exact Hl].
Defined.

(** ** The header *)

Lemma join_nil_cons (k : bytes) (ks : list bytes) :
  join [] (k :: ks) = k ++ join [] ks.
Proof. destruct ks; simpl; [now rewrite app_nil_r | reflexivity]. Qed.

Lemma join_nil_len (keys : list bytes) (n : Z) :
  Forall (fun k => len k = n) keys -> len (join [] keys) = n * len keys.
Proof.
  induction 1 as [|k ks Hk _ IH].
  - simpl. unfold len. simpl. lia.
  - rewrite join_nil_cons, len_app, len_cons, IH, Hk. lia.
Qed.

Lemma read_keys_join (keys : list bytes) (rest : bytes) :
  Forall (fun k => len k = KEY_LENGTH) keys ->
  read_keys (List.length keys) (join [] keys ++ rest) = (keys, rest).
Proof.
  induction 1 as [|k ks Hk _ IH]; [reflexivity|].
  cbn [List.length read_keys].
  rewrite join_nil_cons, <- app_assoc, <- Hk, read_exact, IH. reflexivity.
Qed.

Lemma be_digits_len (n : nat) (z : Z) : len (be_digits n z) = Z.of_nat n.
Proof. unfold len. now rewrite be_digits_length. Qed.

Lemma pow_256_4 : 256 ^ Z.of_nat 4 = 2 ^ 32.
Proof. reflexivity. Qed.

Section Header.
Context {Mp : Msgpack}.

(** What [_read_header] does with an envelope, by the payload in it. *)
Lemma read_header_payload (header payload : bytes) :
  msgpack_loads header = Ok (PyBytes payload) ->
  _read_header header =
    let version := int_from_bytes (fst (read 4 payload)) in
    if version <? 1000 then
      let num_keys := int_from_bytes (fst (read 4 (snd (read 4 payload)))) in
      Ok (version,
          fst (read_keys (Z.to_nat num_keys) (snd (read 4 (snd (read 4 payload))))))
    else Err UnboundLocalError.
Proof.
  intros Hl. unfold _read_header. rewrite Hl. cbn [bind BytesIO_new].
  destruct (read 4 payload) as [vers_bytes rest] eqn:E1. cbn [fst snd].
  destruct (int_from_bytes vers_bytes <? 1000); [|reflexivity].
  destruct (read 4 rest) as [num_keys_bytes rest'] eqn:E2. reflexivity.
Qed.

(** A version of 1000 or more leaves [header] unbound. *)
Lemma build_header_unbound (enc_keys : list bytes) (version : Z) :
  1000 <= version -> _build_header enc_keys version = Err UnboundLocalError.
Proof.
  intros H. unfold _build_header.
  replace (version <? 1000) with false by (symmetry; apply Z.ltb_ge; lia).
  reflexivity.
Qed.

(** A negative version is not a 4-byte version tag. *)
Lemma build_header_negative_version (enc_keys : list bytes) (version : Z) :
  version < 0 -> _build_header enc_keys version = Err OverflowError.
Proof.
  intros H. unfold _build_header.
  replace (version <? 1000) with true by (symmetry; apply Z.ltb_lt; lia).
  rewrite to_bytes_overflow by lia. reflexivity.
Qed.

Context {ML : MsgpackLaws}.

Lemma build_header_ok (enc_keys : list bytes) (version : Z) :
  0 <= version < 1000 ->
  8 + len (join [] enc_keys) < 2 ^ 32 ->
  len enc_keys < 2 ^ 32 ->
  exists header,
    msgpack_dumps (be_digits 4 version ++ be_digits 4 (len enc_keys)
                   ++ join [] enc_keys) = Ok header
    /\ _build_header enc_keys version = Ok (header, len header).
Proof.
  intros Hv Hsize Hn. unfold _build_header.
  replace (version <? 1000) with true by (symmetry; apply Z.ltb_lt; lia).
  destruct (to_bytes_ok version 4) as [-> _]; [rewrite pow_256_4; lia|].
  destruct (to_bytes_ok (len enc_keys) 4) as [-> _].
  { rewrite pow_256_4. pose proof (len_nonneg enc_keys). lia. }
  cbn [bind].
  destruct (dumps_fits (be_digits 4 version ++ be_digits 4 (len enc_keys)
                        ++ join [] enc_keys)) as [header Hd].
  { rewrite !len_app, !be_digits_len. lia. }
  exists header. rewrite Hd. split; reflexivity.
Qed.

Lemma header_roundtrip_sized (keys : list bytes) (version : Z) :
  Forall (fun k => len k = KEY_LENGTH) keys ->
  0 <= version < 1000 ->
  8 + KEY_LENGTH * len keys < 2 ^ 32 ->
  exists header,
    _build_header keys version = Ok (header, len header)
    /\ _read_header header = Ok (version, keys)
    /\ len header <= 13 + KEY_LENGTH * len keys.
Proof.
  intros Hk Hv Hsize.
  pose proof (join_nil_len keys KEY_LENGTH Hk) as Hlen.
  pose proof (len_nonneg keys) as Hn0.
  assert (Hn : len keys < 2 ^ 32) by (unfold KEY_LENGTH in Hsize; lia).
  destruct (build_header_ok keys version Hv) as (header & Hd & Hb);
    [lia | exact Hn |].
  exists header. split; [exact Hb|]. split.
  - rewrite (read_header_payload _ _ (loads_dumps _ _ Hd)).
    rewrite (read_prefix 4 (be_digits 4 version)) by reflexivity. cbn [fst snd].
    destruct (to_bytes_ok version 4) as [_ ->]; [rewrite pow_256_4; lia|].
    replace (version <? 1000) with true by (symmetry; apply Z.ltb_lt; lia).
    rewrite (read_prefix 4 (be_digits 4 (len keys))) by reflexivity.
    cbn [fst snd].
    destruct (to_bytes_ok (len keys) 4) as [_ ->]; [rewrite pow_256_4; lia|].
    unfold len at 1. rewrite Nat2Z.id.
    rewrite <- (app_nil_r (join [] keys)), read_keys_join by assumption.
    reflexivity.
  - pose proof (dumps_size _ _ Hd) as Hs.
    rewrite !len_app, !be_digits_len, Hlen in Hs. lia.
Qed.

(** C4. A header built from 148-byte keys and a version below 1000 parses
    back to the same version and the same keys in the same order (the
    version is a non-negative integer and the header fits the 32-bit
    lengths of its framing). *)
Theorem header_roundtrip (keys : list bytes) (version : Z) :
  Forall (fun k => len k = KEY_LENGTH) keys ->
  0 <= version < 1000 ->
  8 + KEY_LENGTH * len keys < 2 ^ 32 ->
  exists header,
    _build_header keys version = Ok (header, len header)
    /\ _read_header header = Ok (version, keys).
Proof.
  intros Hk Hv Hsize.
  destruct (header_roundtrip_sized keys version Hk Hv Hsize) as (h & Hb & Hr & _).
  exists h. split; assumption.
Qed.

End Header.

(** ** The reference collaborators satisfy the laws *)

Section ReferenceLaws.
Import Reference.

Lemma unpack_bin_body (width : nat) (n : Z) (body : bytes) :
  0 <= n < 256 ^ Z.of_nat width ->
  unpack_bin width (be_digits width n ++ body) =
    if len body <? n then Err ValueError
    else if n <? len body then Err ExtraData
    else Ok (PyBytes body).
Proof.
  intros Hn. unfold unpack_bin.
  rewrite length_app, be_digits_length.
  replace (width + List.length body <? width)%nat with false
    by (symmetry; apply Nat.ltb_ge; lia).
  rewrite firstn_app, be_digits_length, Nat.sub_diag, firstn_O, app_nil_r.
  rewrite firstn_all2 by (rewrite be_digits_length; lia).
  rewrite skipn_app, be_digits_length, Nat.sub_diag.
  rewrite skipn_all2 by (rewrite be_digits_length; lia).
  cbn [skipn app].
  destruct (to_bytes_ok n width Hn) as [_ ->]. reflexivity.
Qed.

Lemma unpack_bin_short (width : nat) (n : Z) (body : bytes) (k : nat) :
  0 <= n < 256 ^ Z.of_nat width ->
  len body <= n ->
  (k < width + List.length body)%nat ->
  unpack_bin width (firstn k (be_digits width n ++ body)) = Err ValueError.
Proof.
  intros Hn Hb Hk.
  destruct (Nat.ltb_spec k width) as [Hlt|Hge].
  - unfold unpack_bin. rewrite length_firstn, length_app, be_digits_length.
    replace (Nat.min k (width + List.length body) <? width)%nat with true
      by (symmetry; apply Nat.ltb_lt; lia).
    reflexivity.
  - rewrite firstn_app, be_digits_length.
    rewrite firstn_all2 by (rewrite be_digits_length; lia).
    rewrite unpack_bin_body by assumption.
    replace (len (firstn (k - width) body) <? n) with true; [reflexivity|].
    symmetry. apply Z.ltb_lt. unfold len in *. rewrite length_firstn. lia.
Qed.

Lemma dumps_cases (x e : bytes) :
  dumps x = Ok e ->
  exists (t : byte) (width : nat),
    e = t :: be_digits width (len x) ++ x
    /\ 0 <= len x < 256 ^ Z.of_nat width
    /\ (1 <= width <= 4)%nat
    /\ loads e = unpack_bin width (be_digits width (len x) ++ x)
    /\ forall rest, loads (t :: rest) = unpack_bin width rest.
Proof.
  unfold dumps. pose proof (len_nonneg x) as H0.
  destruct (len x <? 2 ^ 8) eqn:E1.
  { intros [= <-]. exists xc4, 1%nat. apply Z.ltb_lt in E1.
    repeat split; try lia; try reflexivity. }
  destruct (len x <? 2 ^ 16) eqn:E2.
  { intros [= <-]. exists xc5, 2%nat. apply Z.ltb_lt in E2.
    repeat split; try lia; try reflexivity. }
  destruct (len x <? 2 ^ 32) eqn:E3; [|discriminate].
  intros [= <-]. exists xc6, 4%nat. apply Z.ltb_lt in E3.
  repeat split; try lia; try reflexivity.
Qed.

Lemma reference_msgpack_laws : @MsgpackLaws msgpack.
Proof.
  constructor; cbn [msgpack_dumps msgpack_loads msgpack].
  - intros x Hx. unfold dumps.
    destruct (len x <? 2 ^ 8); [eauto|].
    destruct (len x <? 2 ^ 16); [eauto|].
    replace (len x <? 2 ^ 32) with true by (symmetry; apply Z.ltb_lt; lia).
    eauto.
  - intros x e Hd.
    destruct (dumps_cases x e Hd) as (t & w & -> & Hn & _ & -> & _).
    rewrite unpack_bin_body by assumption.
    now rewrite Z.ltb_irrefl.
  - intros x e Hd.
    destruct (dumps_cases x e Hd) as (t & w & -> & Hn & Hw & _).
    rewrite len_cons, len_app, be_digits_len. lia.
Qed.

Lemma reference_msgpack_strict : @MsgpackStrict msgpack.
Proof.
  constructor; cbn [msgpack_dumps msgpack_loads msgpack].
  - intros x e n Hd Hlt.
    destruct (dumps_cases x e Hd) as (t & w & -> & Hn & _ & _ & Hl).
    destruct n as [|k]; [exists ValueError; reflexivity|].
    cbn [firstn]. rewrite Hl. exists ValueError.
    apply unpack_bin_short; [assumption| lia |].
    cbn [List.length] in Hlt. rewrite length_app, be_digits_length in Hlt. lia.
  - intros x e t Hd Ht.
    destruct (dumps_cases x e Hd) as (tb & w & -> & Hn & _ & _ & Hl).
    cbn [app]. rewrite Hl, <- app_assoc, unpack_bin_body by assumption.
    assert (len x < len (x ++ t)).
    { rewrite len_app. destruct t; [contradiction|]. rewrite len_cons.
      pose proof (len_nonneg t). lia. }
    replace (len (x ++ t) <? len x) with false by (symmetry; apply Z.ltb_ge; lia).
    replace (len x <? len (x ++ t)) with true by (symmetry; apply Z.ltb_lt; lia).
    exists ExtraData. reflexivity.
Qed.

Lemma reference_random_laws : @RandomLaws random.
Proof.
  constructor. intros n s Hn. cbn. rewrite be_digits_len. lia.
Qed.

End ReferenceLaws.

Lemma header_roundtrip_witness :
  exists header,
    @_build_header Reference.msgpack [repeat x07 148; repeat x09 148] 100
      = Ok (header, len header)
    /\ @_read_header Reference.msgpack header
      = Ok (100, [repeat x07 148; repeat x09 148]).
Proof.
  apply (@header_roundtrip Reference.msgpack reference_msgpack_laws).
  - repeat constructor.
  - lia.
  - vm_compute. reflexivity.
Defined.

(** ** The client *)

Section ClientProperties.
Context `{Rnd : Random} {Kec : Keccak} {Mp : Msgpack} {Pre : PRE} {Sym : Symmetric}.
Variable self : Client.

(** [__init__] leaves a private key and its public key. *)
Lemma init_client_ok (s s' : entropy) (client : Client) :
  __init__ s = (Ok client, s') -> client_ok client.
Proof.
  unfold __init__. destruct (gen_priv s) as [priv s1].
  intros [= <- _]. reflexivity.
Qed.

(** *** Decoding a container *)

Lemma read_header_loads_err (header : bytes) (e : exn) :
  msgpack_loads header = Err e -> _read_header header = Err e.
Proof. intros H. unfold _read_header. now rewrite H. Qed.

Lemma read_header_version (header : bytes) (version : Z) (enc_keys : list bytes) :
  _read_header header = Ok (version, enc_keys) -> version < 1000.
Proof.
  unfold _read_header.
  destruct (msgpack_loads header) as [obj|]; [|discriminate]. cbn [bind].
  destruct (BytesIO_new obj) as [f|]; [|discriminate]. cbn [bind].
  destruct (read 4 f) as [vers_bytes f'].
  destruct (int_from_bytes vers_bytes <? 1000) eqn:E.
  - destruct (read 4 f'). cbn [bind]. intros [= <- _]. now apply Z.ltb_lt.
  - discriminate.
Qed.

Lemma decrypt_header_err (edata : bytes) (path owner : option bytes) (e : exn) :
  _read_header (header_slice edata) = Err e ->
  decrypt self edata path owner = Err e.
Proof.
  unfold decrypt, header_slice.
  destruct (read 4 edata) as [length_bytes enc_file]. cbn [fst snd].
  destruct (read (int_from_bytes length_bytes) enc_file) as [header enc_file'].
  cbn [fst]. intros ->. reflexivity.
Qed.

Lemma read_frame (header rest : bytes) (n : Z) :
  0 <= n < 2 ^ 32 ->
  read 4 (be_digits 4 n ++ header ++ rest) = (be_digits 4 n, header ++ rest)
  /\ int_from_bytes (be_digits 4 n) = n.
Proof.
  intros Hn. split.
  - now apply read_prefix.
  - apply to_bytes_ok. now rewrite pow_256_4.
Qed.

(** [decrypt] on a container framed as [encrypt] frames it. *)
Lemma decrypt_framed (header rest : bytes) (path owner : option bytes)
  (version : Z) (enc_keys : list bytes) (ciphertext : pyobj) :
  len header < 2 ^ 32 ->
  _read_header header = Ok (version, enc_keys) ->
  msgpack_loads rest = Ok ciphertext ->
  decrypt self (be_digits 4 (len header) ++ header ++ rest) path owner =
    (valid_key <- search_valid_key self path enc_keys None ;;
     decrypt_bulk ciphertext valid_key).
Proof.
  intros Hlen Hh Hc. unfold decrypt.
  destruct (read_frame header rest (len header)) as [H1 H2].
  { pose proof (len_nonneg header). lia. }
  rewrite H1. cbv iota. rewrite H2, read_exact, Hh. cbn [bind read_all fst]. rewrite Hc. cbn [bind].
  apply read_header_version in Hh.
  replace (version <? 1000) with true by (symmetry; apply Z.ltb_lt; lia).
  destruct (search_valid_key self path enc_keys None) as [vk|]; [|reflexivity].
  cbn [bind]. destruct (decrypt_bulk ciphertext vk); reflexivity.
Qed.

Lemma wrapped_keys_framed (header rest : bytes) (version : Z)
  (enc_keys : list bytes) :
  len header < 2 ^ 32 ->
  _read_header header = Ok (version, enc_keys) ->
  wrapped_keys (be_digits 4 (len header) ++ header ++ rest) = Ok enc_keys.
Proof.
  intros Hlen Hh. unfold wrapped_keys.
  destruct (read_frame header rest (len header)) as [H1 H2].
  { pose proof (len_nonneg header). lia. }
  rewrite H1. cbv iota. rewrite H2, read_exact, Hh. reflexivity.
Qed.

(** *** The candidate-key search *)

Lemma search_none (path : option bytes) (enc_keys : list bytes)
  (valid_key : option bytes) :
  Forall (nonconforming self path) enc_keys ->
  search_valid_key self path enc_keys valid_key = Ok valid_key.
Proof.
  induction 1 as [|k ks (dk & Hd & Hl) _ IH]; [reflexivity|].
  cbn [search_valid_key]. rewrite Hd. cbn [bind].
  replace (len dk =? 32) with false by (symmetry; apply Z.eqb_neq; lia).
  exact IH.
Qed.

Lemma search_first (path : option bytes) (before after : list bytes)
  (enc_key dec_key : bytes) (valid_key : option bytes) :
  Forall (nonconforming self path) before ->
  decrypt_key self enc_key None path None = Ok dec_key ->
  len dec_key = 32 ->
  search_valid_key self path (before ++ enc_key :: after) valid_key
  = Ok (Some dec_key).
Proof.
  intros Hb Hd Hl.
  induction Hb as [|k ks (dk & Hk & Hn) _ IH].
  - cbn [app search_valid_key]. rewrite Hd. cbn [bind].
    now replace (len dec_key =? 32) with true by (symmetry; apply Z.eqb_eq; lia).
  - cbn [app search_valid_key]. rewrite Hk. cbn [bind].
    replace (len dk =? 32) with false by (symmetry; apply Z.eqb_neq; lia).
    exact IH.
Qed.

(** A candidate whose unwrapping raises, met before any conforms, ends
    the search with that exception. *)
Lemma search_error (path : option bytes) (before after : list bytes)
  (enc_key : bytes) (e : exn) (valid_key : option bytes) :
  Forall (nonconforming self path) before ->
  decrypt_key self enc_key None path None = Err e ->
  search_valid_key self path (before ++ enc_key :: after) valid_key = Err e.
Proof.
  intros Hb He.
  induction Hb as [|k ks (dk & Hk & Hn) _ IH]; cbn [app search_valid_key].
  - now rewrite He.
  - rewrite Hk. cbn [bind].
    replace (len dk =? 32) with false by (symmetry; apply Z.eqb_neq; lia).
    exact IH.
Qed.

(** Every list of wrapped keys has a first candidate that conforms, or a
    first candidate whose unwrapping raises, or neither. *)
Lemma search_cases (path : option bytes) (enc_keys : list bytes) :
  (exists before enc_key after dec_key,
      enc_keys = before ++ enc_key :: after
      /\ Forall (nonconforming self path) before
      /\ decrypt_key self enc_key None path None = Ok dec_key
      /\ len dec_key = 32)
  \/ (exists before enc_key after e,
      enc_keys = before ++ enc_key :: after
      /\ Forall (nonconforming self path) before
      /\ decrypt_key self enc_key None path None = Err e)
  \/ Forall (nonconforming self path) enc_keys.
Proof.
  induction enc_keys as [|k ks IH]; [right; right; constructor|].
  destruct (decrypt_key self k None path None) as [dk|e] eqn:Ek.
  - destruct (Z.eq_dec (len dk) 32) as [Hl|Hl].
    + left. exists [], k, ks, dk. repeat split; [constructor | assumption..].
    + assert (Hk : nonconforming self path k) by (exists dk; split; assumption).
      destruct IH as [(bf & ek & af & dk' & -> & Hb & Hd & Hl')
                     |[(bf & ek & af & e & -> & Hb & Hd)|Hall]].
      * left. exists (k :: bf), ek, af, dk'.
        repeat split; [constructor; assumption | assumption..].
      * right. left. exists (k :: bf), ek, af, e.
        repeat split; [constructor; assumption | assumption].
      * right. right. constructor; assumption.
  - right. left. exists [], k, ks, e. repeat split; [constructor | assumption].
Qed.

(** C2, as the code has it.  Once [decrypt] has parsed the header and the
    ciphertext envelope, the wrapped keys are unwrapped in header order,
    and the search ends at the first candidate that conforms or raises:
    a candidate that unwraps to exactly 32 bytes is the key the bulk cipher
    gets, and one whose unwrapping raises makes [decrypt] fail with that
    exception; in both cases the candidates before it unwrapped to other
    lengths and were passed over, and the candidates after it are not
    tried.  When every wrapped key unwraps to another length (or the header
    holds none), there is no failure of the search: [valid_key] is still
    [None] and [decrypt] goes on to [decrypt_bulk] with [None] as the key,
    so the outcome is whatever the cipher class makes of that key.  One of
    the three always is the case. *)
Theorem decrypt_key_search
  (header rest : bytes) (path owner : option bytes)
  (version : Z) (enc_keys : list bytes) (ciphertext : pyobj) :
  len header < 2 ^ 32 ->
  _read_header header = Ok (version, enc_keys) ->
  msgpack_loads rest = Ok ciphertext ->
  let edata := be_digits 4 (len header) ++ header ++ rest in
  (forall before enc_key after dec_key,
      enc_keys = before ++ enc_key :: after ->
      Forall (nonconforming self path) before ->
      decrypt_key self enc_key None path None = Ok dec_key ->
      len dec_key = 32 ->
      search_valid_key self path enc_keys None = Ok (Some dec_key)
      /\ decrypt self edata path owner = decrypt_bulk ciphertext (Some dec_key))
  /\ (forall before enc_key after e,
      enc_keys = before ++ enc_key :: after ->
      Forall (nonconforming self path) before ->
      decrypt_key self enc_key None path None = Err e ->
      search_valid_key self path enc_keys None = Err e
      /\ decrypt self edata path owner = Err e)
  /\ (Forall (nonconforming self path) enc_keys ->
      search_valid_key self path enc_keys None = Ok None
      /\ decrypt self edata path owner = decrypt_bulk ciphertext None)
  /\ ((exists before enc_key after dec_key,
         enc_keys = before ++ enc_key :: after
         /\ Forall (nonconforming self path) before
         /\ decrypt_key self enc_key None path None = Ok dec_key
         /\ len dec_key = 32)
      \/ (exists before enc_key after e,
         enc_keys = before ++ enc_key :: after
         /\ Forall (nonconforming self path) before
         /\ decrypt_key self enc_key None path None = Err e)
      \/ Forall (nonconforming self path) enc_keys).
Proof.
  intros Hlen Hh Hc edata.
  pose proof (decrypt_framed header rest path owner _ _ _ Hlen Hh Hc) as Hd.
  fold edata in Hd. split; [|split; [|split]].
  - intros before enc_key after dec_key -> Hb Hk Hl.
    pose proof (search_first path before after enc_key dec_key None Hb Hk Hl) as Hs.
    split; [exact Hs|]. rewrite Hd, Hs. reflexivity.
  - intros before enc_key after e -> Hb Hk.
    pose proof (search_error path before after enc_key e None Hb Hk) as Hs.
    split; [exact Hs|]. rewrite Hd, Hs. reflexivity.
  - intros Hn. pose proof (search_none path enc_keys None Hn) as Hs.
    split; [exact Hs|]. rewrite Hd, Hs. reflexivity.
  - apply search_cases.
Qed.

(** *** Versions of 1000 and more *)

(** C7, as the code has it.  Building a header with a version of 1000 or
    more, parsing a header that carries one, and decrypting a container
    with such a header all fail, with the [UnboundLocalError] of the result
    variable that the version branch alone binds. *)
Theorem unsupported_version_unbound :
  (forall enc_keys version,
      1000 <= version -> _build_header enc_keys version = Err UnboundLocalError)
  /\ (forall header payload,
      msgpack_loads header = Ok (PyBytes payload) ->
      1000 <= int_from_bytes (fst (read 4 payload)) ->
      _read_header header = Err UnboundLocalError
      /\ forall rest path owner,
          len header < 2 ^ 32 ->
          decrypt self (be_digits 4 (len header) ++ header ++ rest) path owner
          = Err UnboundLocalError).
Proof.
  split; [apply build_header_unbound|].
  intros header payload Hl Hv.
  assert (Hr : _read_header header = Err UnboundLocalError).
  { rewrite (read_header_payload _ _ Hl). cbv zeta.
    now replace (int_from_bytes (fst (read 4 payload)) <? 1000) with false
      by (symmetry; apply Z.ltb_ge; lia). }
  split; [exact Hr|]. intros rest path owner Hlen.
  apply decrypt_header_err. unfold header_slice.
  destruct (read_frame header rest (len header)) as [H1 H2].
  { pose proof (len_nonneg header). lia. }
  rewrite H1. cbn [fst snd]. rewrite H2, read_exact. exact Hr.
Qed.

(** *** The policy operations *)

(** C8, as the code has it.  [revoke], [list_permissions] and [remove]
    return [None] whatever their arguments; [grant] computes a
    re-encryption key from the client's private key and the given public
    key, drops it and returns [None] (an exception of [rekey] is the only
    one it can raise). *)
Theorem policy_operations_return_none :
  (forall pubkey path, revoke pubkey path = Ok None)
  /\ (forall pubkey path, list_permissions pubkey path = Ok None)
  /\ (forall pubkey path, remove pubkey path = Ok None)
  /\ (forall pubkey path,
        grant self pubkey path =
          match pre_rekey (_priv_key self) pubkey with
          | Ok _ => Ok None
          | Err e => Err e
          end).
Proof. repeat split. Qed.

(** *** The owner argument *)

(** C9. [decrypt] never reads [owner]: two calls that differ in it alone
    have the same result, or the same failure. *)
Theorem decrypt_owner_irrelevant (edata : bytes) (path o1 o2 : option bytes) :
  decrypt self edata path o1 = decrypt self edata path o2.
Proof. reflexivity. Qed.

End ClientProperties.

(** ** Wrapping the data key *)

Section KeyWrapping.
Context `{Rnd : Random} {Kec : Keccak} {Pre : PRE} {PL : PRELaws}.
Variable self : Client.

Lemma bindM_ok {A B : Type} (m : M A) (f : A -> M B) (s s' : entropy) (a : A) :
  m s = (Ok a, s') -> bindM m f s = f a s'.
Proof. intros H. unfold bindM. now rewrite H. Qed.

Lemma bindM_inv {A B : Type} (m : M A) (f : A -> M B) (s s2 : entropy) (r : B) :
  bindM m f s = (Ok r, s2) ->
  exists a s1, m s = (Ok a, s1) /\ f a s1 = (Ok r, s2).
Proof.
  unfold bindM. destruct (m s) as [[a|e] s1]; [eauto | discriminate].
Qed.

(** A public key that is not empty is the key [encrypt_key] wraps to. *)
Lemma encrypt_key_nopath_pubkey (key pubkey : bytes) :
  pubkey <> [] ->
  encrypt_key_nopath self key (Some pubkey) = pre_encrypt pubkey key.
Proof. destruct pubkey; [contradiction | reflexivity]. Qed.

Lemma encrypt_key_nopath_own (key : bytes) :
  encrypt_key_nopath self key None = pre_encrypt (_pub_key self) key.
Proof. reflexivity. Qed.

Lemma encrypt_subpaths_wrapped (key : bytes) (subpaths : list bytes) :
  forall enc_keys s r s',
    encrypt_subpaths self key subpaths enc_keys s = (Ok r, s') ->
    exists added,
      r = enc_keys ++ added
      /\ Forall2 (fun subpath enc_key =>
                    wrapped_for (_derive_path_key self subpath true) key enc_key)
                 subpaths added.
Proof.
  induction subpaths as [|subpath subpaths IH]; intros enc_keys s r s' H.
  - cbn in H. injection H as <- _. exists []. split; [now rewrite app_nil_r|constructor].
  - cbn [encrypt_subpaths] in H. apply bindM_inv in H as (k & s1 & Hk & H).
    rewrite encrypt_key_nopath_pubkey in Hk by apply priv2pub_nonempty.
    apply IH in H as (added & -> & Hf).
    exists (k :: added). split; [now rewrite <- app_assoc|].
    constructor; [|exact Hf]. now exists s, s1.
Qed.

(** The loop over the subpaths wraps the key once for each, to blobs of
    [KEY_LENGTH] bytes that the private key derived for the subpath
    unwraps. *)
Lemma encrypt_subpaths_ok (key : bytes) (subpaths : list bytes) :
  len key = 32 ->
  forall enc_keys s,
    exists added s',
      encrypt_subpaths self key subpaths enc_keys s = (Ok (enc_keys ++ added), s')
      /\ Forall2 (fun subpath enc_key =>
                    wrapped_for (_derive_path_key self subpath true) key enc_key
                    /\ len enc_key = KEY_LENGTH
                    /\ pre_decrypt (_derive_path_key self subpath false) enc_key
                       = Ok key)
                 subpaths added.
Proof.
  intros Hkey. induction subpaths as [|subpath subpaths IH]; intros enc_keys s.
  - exists [], s. split; [cbn; now rewrite app_nil_r | constructor].
  - cbn [encrypt_subpaths].
    destruct (pre_roundtrip (keccak_256 (_priv_key self ++ subpath)) key s Hkey)
      as (k & s1 & Hk & Hlen & Hdec).
    rewrite encrypt_key_nopath_pubkey by apply priv2pub_nonempty.
    change (_derive_path_key self subpath true)
      with (priv2pub (keccak_256 (_priv_key self ++ subpath))).
    rewrite (bindM_ok _ _ _ _ _ Hk).
    destruct (IH (enc_keys ++ [k]) s1) as (added & s' & -> & Hf).
    exists (k :: added), s'. split; [now rewrite <- app_assoc|].
    constructor; [|exact Hf]. repeat split; try assumption. now exists s, s1.
Qed.

(** Each key [encrypt_key] returns for a path unwraps under its own
    subpath, as [test_decrypt_key_with_path] checks. *)
Lemma decrypt_key_with_subpath (key path : bytes) (s : entropy) :
  len key = 32 ->
  exists enc_keys s',
    encrypt_key self key None (Some path) s = (Ok (Keys enc_keys), s')
    /\ Forall2 (fun subpath enc_key =>
                  decrypt_key self enc_key None (Some subpath) None = Ok key)
               (_split_path path) enc_keys.
Proof.
  intros Hkey.
  destruct (encrypt_subpaths_ok key (_split_path path) Hkey [] s)
    as (added & s' & Hsub & Hf).
  exists added, s'. split.
  - cbn [encrypt_key]. unfold bindM. rewrite Hsub. reflexivity.
  - clear -Hf. induction Hf as [|? ? ? ? (_ & _ & Hd) _ IH]; constructor;
      assumption.
Qed.

(** C10. With a path, [encrypt_key] does not look at [pubkey]: the call
    has the result of the same call without a public key, and every key it
    returns is wrapped to the public key derived for one subpath of the
    path, in the order of the subpaths; for a 32-byte key it does return
    them. *)
Theorem encrypt_key_path_ignores_pubkey
  (key : bytes) (pubkey : option bytes) (path : bytes) (s : entropy) :
  encrypt_key self key pubkey (Some path) s
  = encrypt_key self key None (Some path) s
  /\ (forall r s',
      encrypt_key self key pubkey (Some path) s = (Ok r, s') ->
      exists enc_keys,
        r = Keys enc_keys
        /\ Forall2 (fun subpath enc_key =>
                      wrapped_for (_derive_path_key self subpath true) key enc_key)
                   (_split_path path) enc_keys)
  /\ (len key = 32 ->
      exists enc_keys s',
        encrypt_key self key pubkey (Some path) s = (Ok (Keys enc_keys), s')).
Proof.
  split; [reflexivity|]. split.
  - intros r s' H.
    cbn [encrypt_key] in H. apply bindM_inv in H as (l & s1 & Hl & H).
    injection H as <- _.
    apply encrypt_subpaths_wrapped in Hl as (added & -> & Hf).
    exists added. split; [reflexivity | exact Hf].
  - intros Hkey.
    destruct (encrypt_subpaths_ok key (_split_path path) Hkey [] s)
      as (added & s' & Hsub & _).
    exists added, s'. cbn [encrypt_key]. unfold bindM. rewrite Hsub. reflexivity.
Qed.

End KeyWrapping.

(** ** Encrypting, and decrypting what was encrypted *)

Section Containers.
Context `{Rnd : Random} {Kec : Keccak} {Mp : Msgpack} {Pre : PRE} {Sym : Symmetric}.
Context {RL : RandomLaws} {ML : MsgpackLaws} {PL : PRELaws} {SL : SymmetricLaws}.
Variable self : Client.

(** What [encrypt] returns, part by part. *)
Lemma encrypt_parts (data : bytes) (path : option bytes) (s : entropy) :
  client_ok self ->
  len data + symm_overhead < 2 ^ 32 ->
  (forall p, path = Some p -> 13 + KEY_LENGTH * len (_split_path p) < 2 ^ 32) ->
  let data_key := fst (utils_random 32 s) in
  exists cipher edata ciphertext enc_keys header s0 s1 s',
    encrypt self data path s
    = (Ok (be_digits 4 (len header) ++ header ++ ciphertext), s')
    /\ len data_key = 32
    /\ _symm (Some data_key) = Ok cipher
    /\ cipher_encrypt cipher data s0 = (Ok edata, s1)
    /\ cipher_decrypt cipher (PyBytes edata) = Ok data
    /\ msgpack_loads ciphertext = Ok (PyBytes edata)
    /\ len header < 2 ^ 32
    /\ _read_header header = Ok (100, enc_keys)
    /\ match path with
       | Some p =>
           Forall2 (fun subpath enc_key =>
                      wrapped_for (_derive_path_key self subpath true) data_key enc_key
                      /\ len enc_key = KEY_LENGTH
                      /\ pre_decrypt (_derive_path_key self subpath false) enc_key
                         = Ok data_key)
                   (_split_path p) enc_keys
       | None =>
           exists enc_key,
             enc_keys = [enc_key]
             /\ wrapped_for (_pub_key self) data_key enc_key
             /\ pre_decrypt (_priv_key self) enc_key = Ok data_key
       end.
Proof.
  intros Hself Hdata Hpath data_key.
  assert (Hkey : len data_key = 32) by (apply utils_random_len; lia).
  unfold encrypt.
  destruct (utils_random 32 s) as [dk s0] eqn:Er. cbn [fst] in data_key.
  subst data_key.
  destruct (symm_roundtrip dk data s0 Hkey) as (c & ct & s1 & Hc & He & Hct & Hd).
  destruct (dumps_fits ct) as [env Henv]; [lia|].
  assert (Hbulk : encrypt_bulk data (Some dk) s0 = (Ok ct, s1)).
  { unfold encrypt_bulk, bindM, lift. rewrite Hc. exact He. }
  rewrite (bindM_ok _ _ _ _ _ Hbulk).
  assert (Hl : lift (msgpack_dumps ct) s1 = (Ok env, s1))
    by (unfold lift; now rewrite Henv).
  rewrite (bindM_ok _ _ _ _ _ Hl).
  assert (Hkeys : exists enc_keys s2,
    match path with
    | Some _ => r <~ encrypt_key self dk None path ;; lift (as_keys r)
    | None => r <~ encrypt_key self dk None path ;;
              k <~ lift (as_key r) ;; retM [k]
    end s1 = (Ok enc_keys, s2)
    /\ Forall (fun k => len k = KEY_LENGTH) enc_keys
    /\ match path with
       | Some p =>
           Forall2 (fun subpath enc_key =>
                      wrapped_for (_derive_path_key self subpath true) dk enc_key
                      /\ len enc_key = KEY_LENGTH
                      /\ pre_decrypt (_derive_path_key self subpath false) enc_key
                         = Ok dk)
                   (_split_path p) enc_keys
       | None =>
           exists enc_key,
             enc_keys = [enc_key]
             /\ wrapped_for (_pub_key self) dk enc_key
             /\ pre_decrypt (_priv_key self) enc_key = Ok dk
       end).
  { destruct path as [p|].
    - destruct (encrypt_subpaths_ok self dk (_split_path p) Hkey [] s1)
        as (added & s2 & Hsub & Hf).
      exists added, s2. split; [|split; [|exact Hf]].
      + cbn [encrypt_key]. unfold bindM at 1 2. rewrite Hsub. reflexivity.
      + clear -Hf. induction Hf as [|? ? ? ? (_ & Hlen & _) _ IH]; constructor;
          assumption.
    - destruct (pre_roundtrip (_priv_key self) dk s1 Hkey)
        as (k & s2 & Hk & Hlen & Hdec).
      rewrite <- Hself in Hk.
      exists [k], s2. split; [|split].
      + cbn [encrypt_key]. rewrite encrypt_key_nopath_own.
        unfold bindM at 1 2. rewrite Hk. reflexivity.
      + repeat constructor. exact Hlen.
      + exists k. repeat split; try assumption. now exists s1, s2. }
  destruct Hkeys as (enc_keys & s2 & Hk & Hlens & Hfacts).
  rewrite (bindM_ok _ _ _ _ _ Hk).
  assert (Hcount : 13 + KEY_LENGTH * len enc_keys < 2 ^ 32).
  { destruct path as [p|].
    - replace (len enc_keys) with (len (_split_path p)); [now apply Hpath|].
      unfold len. f_equal. clear -Hfacts.
      induction Hfacts; [reflexivity|]. simpl. now f_equal.
    - destruct Hfacts as (k & -> & _). reflexivity. }
  destruct (header_roundtrip_sized enc_keys 100 Hlens) as (h & Hb & Hr & Hsz);
    [lia | lia |].
  assert (Hl2 : lift (_build_header enc_keys 100) s2 = (Ok (h, len h), s2))
    by (unfold lift; now rewrite Hb).
  rewrite (bindM_ok _ _ _ _ _ Hl2).
  destruct (to_bytes_ok (len h) 4) as [Hto _].
  { rewrite pow_256_4. pose proof (len_nonneg h). lia. }
  unfold bindM, lift, retM. rewrite Hto.
  exists c, ct, env, enc_keys, h, s0, s1, s2.
  repeat split; try assumption; try lia.
  now apply loads_dumps.
Qed.

(** C3. The container [encrypt] returns for a path holds one wrapped key
    for each prefix of the path, in the order of the prefixes, each wrapped
    to the public key derived for its prefix; without a path it holds one
    wrapped key, wrapped to the client's own public key.  (The payload and
    the path are within the 32-bit lengths of the framing.) *)
Theorem encrypt_wrapped_keys (data : bytes) (path : option bytes) (s : entropy) :
  client_ok self ->
  len data + symm_overhead < 2 ^ 32 ->
  (forall p, path = Some p -> 13 + KEY_LENGTH * len (_split_path p) < 2 ^ 32) ->
  let data_key := fst (utils_random 32 s) in
  exists edata s' enc_keys,
    encrypt self data path s = (Ok edata, s')
    /\ wrapped_keys edata = Ok enc_keys
    /\ match path with
       | Some p =>
           len enc_keys = len (_split_path p)
           /\ Forall2 (fun subpath enc_key =>
                         wrapped_for (_derive_path_key self subpath true)
                                     data_key enc_key)
                      (_split_path p) enc_keys
       | None =>
           exists enc_key,
             enc_keys = [enc_key]
             /\ wrapped_for (_pub_key self) data_key enc_key
       end.
Proof.
  intros Hself Hdata Hpath data_key.
  destruct (encrypt_parts data path s Hself Hdata Hpath)
    as (c & ct & env & enc_keys & h & s0 & s1 & s' & He & _ & _ & _ & _ & _
        & Hlen & Hr & Hfacts).
  exists (be_digits 4 (len h) ++ h ++ env), s', enc_keys.
  split; [exact He|]. split; [now apply (wrapped_keys_framed h env 100)|].
  destruct path as [p|].
  - split.
    + unfold len. f_equal. clear -Hfacts.
      induction Hfacts; [reflexivity|]. simpl. now f_equal.
    + clear -Hfacts. induction Hfacts as [|? ? ? ? (Hw & _) _ IH];
        constructor; assumption.
  - destruct Hfacts as (k & -> & Hw & _). now exists k.
Qed.

(** Without a path the container decrypts to the payload. *)
Lemma roundtrip_no_path (data : bytes) (owner : option bytes) (s : entropy) :
  client_ok self ->
  len data + symm_overhead < 2 ^ 32 ->
  exists edata s',
    encrypt self data None s = (Ok edata, s')
    /\ decrypt self edata None owner = Ok data.
Proof.
  intros Hself Hdata.
  destruct (encrypt_parts data None s Hself Hdata)
    as (c & ct & env & enc_keys & h & s0 & s1 & s' & He & Hkey & Hc & _ & Hd
        & Henv & Hlen & Hr & (k & -> & _ & Hk)); [discriminate|].
  eexists _, s'. split; [exact He|].
  rewrite (decrypt_framed self h env None owner _ _ _ Hlen Hr Henv).
  cbn [search_valid_key]. unfold decrypt_key. rewrite Hk. cbn [bind].
  replace (len (fst (utils_random 32 s)) =? 32) with true
    by (symmetry; now apply Z.eqb_eq).
  cbn [bind]. unfold decrypt_bulk. rewrite Hc. exact Hd.
Qed.

Lemma split_flat (path : bytes) : ~ In slash path -> split slash path = [path].
Proof.
  induction path as [|c path IH]; [reflexivity|]. intros Hn.
  cbn [split]. destruct (byte_eqb c slash) eqn:E.
  - apply byte_dec_bl in E. subst c. exfalso. apply Hn. now left.
  - rewrite IH; [reflexivity|]. intros Hin. apply Hn. now right.
Qed.

Lemma split_path_flat (path : bytes) : ~ In slash path -> _split_path path = [path].
Proof.
  intros Hn. unfold _split_path.
  rewrite bytes_eqb_neq by (intros ->; apply Hn; now left).
  now rewrite split_flat.
Qed.

(** With a path that has no separator the container decrypts to the
    payload under the same path. *)
Lemma roundtrip_flat_path (data path : bytes) (owner : option bytes) (s : entropy) :
  client_ok self ->
  len data + symm_overhead < 2 ^ 32 ->
  ~ In slash path ->
  exists edata s',
    encrypt self data (Some path) s = (Ok edata, s')
    /\ decrypt self edata (Some path) owner = Ok data.
Proof.
  intros Hself Hdata Hflat.
  destruct (encrypt_parts data (Some path) s Hself Hdata)
    as (c & ct & env & enc_keys & h & s0 & s1 & s' & He & Hkey & Hc & _ & Hd
        & Henv & Hlen & Hr & Hf).
  { intros p [= <-]. now rewrite split_path_flat. }
  rewrite split_path_flat in Hf by assumption.
  inversion Hf as [|? k ? ks (_ & _ & Hk) Hnil]; subst. inversion Hnil; subst.
  eexists _, s'. split; [exact He|].
  rewrite (decrypt_framed self h env (Some path) owner _ _ _ Hlen Hr Henv).
  cbn [search_valid_key]. unfold decrypt_key. rewrite Hk. cbn [bind].
  replace (len (fst (utils_random 32 s)) =? 32) with true
    by (symmetry; now apply Z.eqb_eq).
  cbn [bind]. unfold decrypt_bulk. rewrite Hc. exact Hd.
Qed.

(** C1 fails on the root path.  [encrypt] wraps the data key for the one
    prefix [_split_path] gives for [b'/'], which is [b''], and [decrypt]
    unwraps with the private key derived for [b'/'] itself.  When a key
    derived for another path does not unwrap the data key and the cipher
    opens a ciphertext under the key that made it alone, the container does
    not decrypt to the payload. *)
Theorem roundtrip_root_path_fails (data : bytes) (s : entropy) :
  client_ok self ->
  len data + symm_overhead < 2 ^ 32 ->
  (forall key enc_key,
      len key = 32 ->
      wrapped_for (_derive_path_key self (b "") true) key enc_key ->
      pre_decrypt (_derive_path_key self (b "/") false) enc_key <> Ok key) ->
  (forall key cipher edata s0 s1 key',
      len key = 32 ->
      _symm (Some key) = Ok cipher ->
      cipher_encrypt cipher data s0 = (Ok edata, s1) ->
      key' <> Some key ->
      decrypt_bulk (PyBytes edata) key' <> Ok data) ->
  exists edata s',
    encrypt self data (Some (b "/")) s = (Ok edata, s')
    /\ decrypt self edata (Some (b "/")) None <> Ok data.
Proof.
  intros Hself Hdata Hwrong Hauth.
  destruct (encrypt_parts data (Some (b "/")) s Hself Hdata)
    as (c & ct & env & enc_keys & h & s0 & s1 & s' & He & Hkey & Hc & Hct & _
        & Henv & Hlen & Hr & Hf).
  { intros p [= <-]. reflexivity. }
  change (_split_path (b "/")) with [b ""] in Hf.
  inversion Hf as [|? k ? ks (Hw & _ & _) Hnil]; subst. inversion Hnil; subst.
  eexists _, s'. split; [exact He|].
  rewrite (decrypt_framed self h env (Some (b "/")) None _ _ _ Hlen Hr Henv).
  cbn [search_valid_key]. unfold decrypt_key.
  pose proof (Hwrong _ k Hkey Hw) as Hk.
  destruct (pre_decrypt (_derive_path_key self (b "/") false) k) as [dk|e];
    [|discriminate].
  cbn [bind]. destruct (len dk =? 32); cbn [bind].
  - apply (Hauth _ c ct s0 s1 (Some dk) Hkey Hc Hct). congruence.
  - apply (Hauth _ c ct s0 s1 None Hkey Hc Hct). discriminate.
Qed.

End Containers.

(** ** Short and corrupt input *)

Lemma int_from_bytes_nonneg (bs : bytes) : 0 <= int_from_bytes bs.
Proof.
  induction bs as [|x bs IH] using rev_ind; [cbn; lia|].
  rewrite int_from_bytes_snoc. pose proof (Z_of_byte_range x). lia.
Qed.

Lemma read_keys_step (n : nat) (f : BytesIO) :
  read_keys (S n) f
  = (firstn 148 f :: fst (read_keys n (skipn 148 f)),
     snd (read_keys n (skipn 148 f))).
Proof.
  cbn [read_keys]. change (read KEY_LENGTH f) with (firstn 148 f, skipn 148 f).
  cbv iota. now destruct (read_keys n (skipn 148 f)).
Qed.

Lemma read_keys_length (n : nat) (f : BytesIO) :
  List.length (fst (read_keys n f)) = n.
Proof.
  revert f; induction n as [|n IH]; intros f; [reflexivity|].
  rewrite read_keys_step. cbn [fst List.length]. now rewrite IH.
Qed.

(** The [i]-th key read is the [i]-th 148-byte window of the stream, cut
    at the end of the stream. *)
Lemma read_keys_nth (n : nat) (f : BytesIO) (i : nat) :
  (i < n)%nat ->
  nth i (fst (read_keys n f)) [] = firstn 148 (skipn (148 * i) f).
Proof.
  revert f i; induction n as [|n IH]; intros f i Hi; [lia|].
  rewrite read_keys_step. cbn [fst]. destruct i as [|i].
  - reflexivity.
  - cbn [nth]. rewrite IH by lia. rewrite skipn_skipn. do 2 f_equal. lia.
Qed.

Section Corruption.
Context `{Rnd : Random} {Kec : Keccak} {Mp : Msgpack} {Pre : PRE} {Sym : Symmetric}.
Context {ML : MsgpackLaws} {MS : MsgpackStrict}.
Variable self : Client.

Lemma dumps_nonempty (x e : bytes) : msgpack_dumps x = Ok e -> e <> [].
Proof.
  intros H ->. apply dumps_size in H. pose proof (len_nonneg x).
  unfold len in H at 2. simpl in H. lia.
Qed.

(** A header length other than that of the header makes the slice
    [decrypt] takes something [msgpack.loads] rejects. *)
Lemma header_slice_rejected (x header ciphertext : bytes) (n : Z) (y : bytes) :
  msgpack_dumps x = Ok header ->
  msgpack_dumps y = Ok ciphertext ->
  0 <= n < 2 ^ 32 ->
  n <> len header ->
  exists e,
    msgpack_loads (header_slice (be_digits 4 n ++ header ++ ciphertext)) = Err e.
Proof.
  intros Hx Hy Hn Hne. unfold header_slice.
  destruct (read_frame header ciphertext n Hn) as [H1 H2].
  rewrite H1. cbn [fst snd]. rewrite H2. unfold read.
  replace (n <? 0) with false by (symmetry; apply Z.ltb_ge; lia).
  cbn [fst]. rewrite firstn_app.
  destruct (Z.lt_ge_cases n (len header)) as [Hlt|Hge].
  - unfold len in Hlt.
    replace (Z.to_nat n - List.length header)%nat with 0%nat by lia.
    rewrite firstn_O, app_nil_r.
    apply (loads_truncated x); [assumption | lia].
  - unfold len in Hge, Hne.
    rewrite firstn_all2 by lia.
    apply (loads_extra x); [assumption|].
    pose proof (dumps_nonempty _ _ Hy) as Hc.
    destruct ciphertext as [|c0 ct]; [contradiction|].
    destruct (Z.to_nat n - List.length header)%nat eqn:E; [lia|discriminate].
Qed.

(** C6, as the code has it.  A read never reaches past the end of its
    stream and never fails: it returns the bytes that are left when they
    are fewer than asked for.  So [_read_header] accepts whatever payload
    the envelope holds (version below 1000): it returns as many keys as the
    count field says, each the next 148-byte window of the payload, short
    or empty past its end.  [_read_header] fails in three ways and no
    other: with the exception of [msgpack.loads] when that rejects the
    header, with the [TypeError] of [BytesIO] when the value unpacked is
    neither bytes nor [None], and with [UnboundLocalError] when the version
    is 1000 or more; a [None] parses as version 0 with no keys.  With a
    [msgpack.loads] that rejects truncated and over-long input, a container
    whose header length is changed no longer yields one whole envelope as
    its header, and [decrypt] fails with the exception [msgpack.loads]
    raises on it. *)
Theorem short_reads_do_not_fail :
  (forall n f,
      fst (read n f) ++ snd (read n f) = f
      /\ (0 <= n -> len (fst (read n f)) = Z.min n (len f)))
  /\ (forall header payload,
      msgpack_loads header = Ok (PyBytes payload) ->
      int_from_bytes (firstn 4 payload) < 1000 ->
      exists enc_keys,
        _read_header header = Ok (int_from_bytes (firstn 4 payload), enc_keys)
        /\ len enc_keys = int_from_bytes (firstn 4 (skipn 4 payload))
        /\ forall i, (i < List.length enc_keys)%nat ->
             nth i enc_keys [] = firstn 148 (skipn (8 + 148 * i) payload))
  /\ (forall x header y ciphertext n path owner,
      msgpack_dumps x = Ok header ->
      msgpack_dumps y = Ok ciphertext ->
      0 <= n < 2 ^ 32 ->
      n <> len header ->
      let edata := be_digits 4 n ++ header ++ ciphertext in
      exists e,
        msgpack_loads (header_slice edata) = Err e
        /\ decrypt self edata path owner = Err e)
  /\ (forall header,
      match msgpack_loads header with
      | Err e => _read_header header = Err e
      | Ok PyOther => _read_header header = Err TypeError
      | Ok PyNone => _read_header header = Ok (0, [])
      | Ok (PyBytes payload) =>
          if int_from_bytes (firstn 4 payload) <? 1000
          then exists enc_keys,
                 _read_header header
                 = Ok (int_from_bytes (firstn 4 payload), enc_keys)
          else _read_header header = Err UnboundLocalError
      end).
Proof.
  assert (Hshort : forall header payload,
    msgpack_loads header = Ok (PyBytes payload) ->
    int_from_bytes (firstn 4 payload) < 1000 ->
    exists enc_keys,
      _read_header header = Ok (int_from_bytes (firstn 4 payload), enc_keys)
      /\ len enc_keys = int_from_bytes (firstn 4 (skipn 4 payload))
      /\ forall i, (i < List.length enc_keys)%nat ->
           nth i enc_keys [] = firstn 148 (skipn (8 + 148 * i) payload)).
  { intros header payload Hl Hv.
    rewrite (read_header_payload _ _ Hl).
    change (read 4 payload) with (firstn 4 payload, skipn 4 payload).
    cbn [fst snd].
    change (read 4 (skipn 4 payload))
      with (firstn 4 (skipn 4 payload), skipn 4 (skipn 4 payload)).
    cbn [fst snd].
    replace (int_from_bytes (firstn 4 payload) <? 1000) with true
      by (symmetry; now apply Z.ltb_lt).
    eexists. split; [reflexivity|].
    pose proof (int_from_bytes_nonneg (firstn 4 (skipn 4 payload))) as H0.
    split.
    + unfold len. rewrite read_keys_length. lia.
    + intros i Hi. rewrite read_keys_length in Hi.
      rewrite read_keys_nth by assumption. rewrite !skipn_skipn.
      f_equal. f_equal. lia. }
  split; [|split; [|split]].
  - intros n f. split; [apply read_split | apply read_len].
  - exact Hshort.
  - intros x header y ciphertext n path owner Hx Hy Hn Hne edata.
    destruct (header_slice_rejected x header ciphertext n y Hx Hy Hn Hne)
      as [e He].
    exists e. split; [exact He|].
    apply decrypt_header_err. now apply read_header_loads_err.
  - intros header.
    destruct (msgpack_loads header) as [[| payload |]|e] eqn:El.
    + unfold _read_header. rewrite El. reflexivity.
    + destruct (int_from_bytes (firstn 4 payload) <? 1000) eqn:Ev.
      * apply Z.ltb_lt in Ev.
        destruct (Hshort header payload El Ev) as (enc_keys & Hr & _).
        now exists enc_keys.
      * rewrite (read_header_payload _ _ El).
        change (read 4 payload) with (firstn 4 payload, skipn 4 payload).
        cbn [fst snd]. now rewrite Ev.
    + unfold _read_header. rewrite El. reflexivity.
    + now apply read_header_loads_err.
Qed.

End Corruption.

(** ** More on path splitting *)

Lemma split_count (sep : byte) (s : bytes) :
  List.length (split sep s) = S (count_occ byte_eq_dec s sep).
Proof.
  induction s as [|c s IH]; [reflexivity|].
  cbn [split]. pose proof (split_nonempty sep s) as Hne.
  destruct (byte_eqb c sep) eqn:E.
  - apply byte_dec_bl in E. subst c.
    rewrite count_occ_cons_eq by reflexivity. cbn [List.length]. now rewrite IH.
  - rewrite count_occ_cons_neq by (now apply eqb_false).
    destruct (split sep s) as [|w ws]; [contradiction|]. exact IH.
Qed.

(** The number of prefixes is the number of separators plus one, except
    for the path made of the separator alone, which has one prefix. *)
Theorem split_path_count (path : bytes) :
  List.length (_split_path path)
  = if bytes_eqb path (b "/") then 1%nat
    else S (count_occ byte_eq_dec path slash).
Proof.
  destruct (bytes_eqb path (b "/")) eqn:E.
  - apply bytes_eqb_eq in E. now subst.
  - rewrite split_path_length, split_count; [reflexivity|].
    intros ->. discriminate.
Qed.

Lemma join_app (sep : bytes) (l1 l2 : list bytes) :
  l1 <> [] -> l2 <> [] ->
  join sep (l1 ++ l2) = join sep l1 ++ sep ++ join sep l2.
Proof.
  intros H1 H2. induction l1 as [|x l1 IH]; [contradiction|].
  destruct l1 as [|y l1].
  - cbn [app]. now rewrite join_cons.
  - change ((x :: y :: l1) ++ l2) with (x :: ((y :: l1) ++ l2)).
    rewrite join_cons by discriminate. rewrite IH by discriminate.
    rewrite (join_cons sep x (y :: l1)) by discriminate.
    now rewrite <- !app_assoc.
Qed.

(** A longer run of components joins to a proper extension. *)
Lemma join_firstn_extend (sep : bytes) (dirs : list bytes) (i j : nat) :
  (i < j)%nat -> (j < List.length dirs)%nat ->
  exists t,
    join sep (firstn (S j) dirs) = join sep (firstn (S i) dirs) ++ sep ++ t.
Proof.
  intros Hij Hj.
  assert (Hsplit : firstn (S j) dirs
                   = firstn (S i) dirs ++ firstn (j - i) (skipn (S i) dirs)).
  { rewrite <- (firstn_skipn (S i) (firstn (S j) dirs)).
    rewrite firstn_firstn, skipn_firstn_comm.
    replace (Nat.min (S i) (S j)) with (S i) by lia. reflexivity. }
  rewrite Hsplit. eexists. apply join_app.
  - destruct dirs; [cbn in Hj; lia | discriminate].
  - intros H. apply (f_equal (@List.length bytes)) in H.
    rewrite length_firstn, length_skipn in H. cbn [List.length] in H. lia.
Qed.

Lemma split_path_nth (path : bytes) (i : nat) :
  path <> b "/" -> (i < List.length (split slash path))%nat ->
  nth i (_split_path path) [] = join (b "/") (firstn (S i) (split slash path)).
Proof.
  intros Hne Hi. unfold _split_path. rewrite bytes_eqb_neq by assumption.
  cbv zeta.
  rewrite (nth_indep _ [] (join [slash] (firstn (0 + 1) (split slash path))))
    by (now rewrite length_map, length_seq).
  rewrite (map_nth (fun i => join [slash] (firstn (i + 1) (split slash path)))).
  rewrite seq_nth by assumption. now rewrite Nat.add_1_r.
Qed.

Lemma split_path_last (path : bytes) :
  path <> b "/" -> last (_split_path path) [] = path.
Proof.
  intros Hne. unfold _split_path. rewrite bytes_eqb_neq by assumption.
  cbv zeta. pose proof (split_nonempty slash path) as Hs.
  destruct (List.length (split slash path)) as [|n] eqn:En.
  - destruct (split slash path); [contradiction|discriminate].
  - rewrite seq_S, map_app. cbn [map]. rewrite last_last.
    replace (0 + n + 1)%nat with (List.length (split slash path)) by lia.
    rewrite firstn_all. apply join_split.
Qed.

Lemma last_as_nth {A : Type} (l : list A) (d : A) :
  last l d = nth (List.length l - 1) l d.
Proof.
  induction l as [|x l IH]; [reflexivity|].
  destruct l as [|y l]; [reflexivity|].
  change (last (x :: y :: l) d) with (last (y :: l) d). rewrite IH.
  cbn [List.length Nat.sub]. rewrite Nat.sub_0_r. reflexivity.
Qed.

(** Every prefix is a leading part of the path, and each is a proper
    extension of the one before it: the prefixes are pairwise different,
    so no two wrapped keys of a container are made for the same prefix. *)
Theorem split_path_prefixes_grow (path : bytes) :
  Forall (fun prefix => exists rest, prefix ++ rest = path) (_split_path path)
  /\ (forall i j,
        (i < j)%nat -> (j < List.length (_split_path path))%nat ->
        exists more,
          more <> []
          /\ nth j (_split_path path) [] = nth i (_split_path path) [] ++ more)
  /\ NoDup (_split_path path).
Proof.
  destruct (bytes_eqb path (b "/")) eqn:E.
  { apply bytes_eqb_eq in E. subst. split; [|split].
    - repeat constructor. now exists (b "/").
    - cbn. intros i j Hij Hj. lia.
    - repeat constructor. intros []. }
  assert (Hne : path <> b "/") by (intros ->; discriminate).
  pose proof (split_path_length path Hne) as Hlen.
  assert (Hgrow : forall i j,
    (i < j)%nat -> (j < List.length (_split_path path))%nat ->
    exists more, more <> []
      /\ nth j (_split_path path) [] = nth i (_split_path path) [] ++ more).
  { intros i j Hij Hj. rewrite Hlen in Hj.
    rewrite !split_path_nth by (assumption || lia).
    destruct (join_firstn_extend (b "/") (split slash path) i j Hij Hj) as [t Ht].
    exists (b "/" ++ t). split; [discriminate | exact Ht]. }
  split; [|split]; [| exact Hgrow |].
  - apply Forall_forall. intros prefix Hin.
    apply (In_nth _ _ []) in Hin as (i & Hi & <-).
    destruct (Nat.eq_dec (S i) (List.length (_split_path path))) as [Heq|Hlt].
    + exists []. rewrite app_nil_r.
      rewrite <- (split_path_last path Hne) at 2. rewrite last_as_nth.
      f_equal. lia.
    + destruct (Hgrow i (List.length (_split_path path) - 1)%nat) as (more & _ & Hm);
        [lia | lia |].
      exists more. rewrite <- Hm, <- last_as_nth. now apply split_path_last.
  - apply (NoDup_nth _ []). intros i j Hi Hj Heq.
    destruct (Nat.lt_trichotomy i j) as [Hlt|[Heq'|Hgt]]; [|assumption|].
    + destruct (Hgrow i j Hlt Hj) as (more & Hm & Hx).
      rewrite <- Heq in Hx. exfalso. apply Hm.
      apply (app_inv_head (nth i (_split_path path) [])).
      now rewrite app_nil_r.
    + destruct (Hgrow j i Hgt Hi) as (more & Hm & Hx).
      rewrite Heq in Hx. exfalso. apply Hm.
      apply (app_inv_head (nth j (_split_path path) [])).
      now rewrite app_nil_r.
Qed.

(** Two paths have the same prefixes only when they are the same path, or
    are the empty path and the path made of the separator alone. *)
Theorem split_path_same_prefixes (p q : bytes) :
  _split_path p = _split_path q <->
  p = q \/ (p = b "/" /\ q = b "") \/ (p = b "" /\ q = b "/").
Proof.
  split.
  - intros H.
    destruct (bytes_eqb p (b "/")) eqn:Ep; destruct (bytes_eqb q (b "/")) eqn:Eq.
    + apply bytes_eqb_eq in Ep, Eq. left. congruence.
    + apply bytes_eqb_eq in Ep. subst p. right. left. split; [reflexivity|].
      rewrite <- (split_path_last q) by (intros ->; discriminate).
      now rewrite <- H.
    + apply bytes_eqb_eq in Eq. subst q. right. right. split; [|reflexivity].
      rewrite <- (split_path_last p) by (intros ->; discriminate).
      now rewrite H.
    + left. rewrite <- (split_path_last p), <- (split_path_last q), H;
        [reflexivity | intros ->; discriminate | intros ->; discriminate].
  - intros [->|[[-> ->]|[-> ->]]]; reflexivity.
Qed.

(** ** What a parsed header can be *)

Lemma int_from_bytes_lt (bs : bytes) :
  int_from_bytes bs < 256 ^ Z.of_nat (List.length bs).
Proof.
  induction bs as [|x bs IH] using rev_ind; [cbn; lia|].
  rewrite int_from_bytes_snoc, length_app. cbn [List.length].
  rewrite Nat2Z.inj_add, Z.pow_add_r by lia.
  change (256 ^ Z.of_nat 1) with 256.
  pose proof (Z_of_byte_range x). lia.
Qed.

Lemma int_from_read_4 (f : BytesIO) :
  0 <= int_from_bytes (fst (read 4 f)) < 2 ^ 32.
Proof.
  split; [apply int_from_bytes_nonneg|].
  pose proof (int_from_bytes_lt (fst (read 4 f))) as Hlt.
  pose proof (read_len 4 f ltac:(lia)) as Hlen. unfold len in Hlen.
  assert (Hle : 256 ^ Z.of_nat (List.length (fst (read 4 f))) <= 256 ^ 4)
    by (apply Z.pow_le_mono_r; lia).
  change (256 ^ 4) with (2 ^ 32) in Hle. lia.
Qed.

Lemma read_keys_bounded (n : nat) (f : BytesIO) :
  Forall (fun k => len k <= KEY_LENGTH) (fst (read_keys n f)).
Proof.
  revert f; induction n as [|n IH]; intros f; [constructor|].
  rewrite read_keys_step. cbn [fst]. constructor; [|apply IH].
  unfold len, KEY_LENGTH. rewrite length_firstn. lia.
Qed.

Section ParsedHeader.
Context {Mp : Msgpack}.

(** Whatever bytes it is given, a header that [_read_header] accepts has a
    version from 0 to 999, fewer than 2^32 keys, and no key longer than
    [KEY_LENGTH] bytes. *)
Theorem read_header_bounds (header : bytes) (version : Z) (enc_keys : list bytes) :
  _read_header header = Ok (version, enc_keys) ->
  0 <= version < 1000
  /\ len enc_keys < 2 ^ 32
  /\ Forall (fun k => len k <= KEY_LENGTH) enc_keys.
Proof.
  unfold _read_header.
  destruct (msgpack_loads header) as [obj|]; [|discriminate]. cbn [bind].
  destruct (BytesIO_new obj) as [f|]; [|discriminate]. cbn [bind].
  pose proof (int_from_read_4 f) as Hv.
  destruct (read 4 f) as [vers_bytes f'] eqn:E1. cbn [fst] in Hv.
  destruct (int_from_bytes vers_bytes <? 1000) eqn:E; [|discriminate].
  pose proof (int_from_read_4 f') as Hn.
  destruct (read 4 f') as [num_keys_bytes f''] eqn:E2. cbn [fst] in Hn.
  cbn [bind]. intros [= <- <-]. apply Z.ltb_lt in E.
  split; [lia|]. split.
  - unfold len. rewrite read_keys_length. lia.
  - apply read_keys_bounded.
Qed.

Context {ML : MsgpackLaws}.

(** The header keeps the concatenation of the keys and their number, not
    where one key ends: keys of any lengths parse back as that many
    148-byte windows of the concatenation. *)
Theorem header_keeps_concatenation (keys : list bytes) (version : Z) :
  0 <= version < 1000 ->
  len keys < 2 ^ 32 ->
  8 + len (join [] keys) < 2 ^ 32 ->
  exists header parsed,
    _build_header keys version = Ok (header, len header)
    /\ _read_header header = Ok (version, parsed)
    /\ List.length parsed = List.length keys
    /\ forall i, (i < List.length keys)%nat ->
         nth i parsed [] = firstn 148 (skipn (148 * i) (join [] keys)).
Proof.
  intros Hv Hn Hsize.
  destruct (build_header_ok keys version Hv Hsize Hn) as (header & Hd & Hb).
  exists header. eexists. split; [exact Hb|].
  rewrite (read_header_payload _ _ (loads_dumps _ _ Hd)).
  rewrite (read_prefix 4 (be_digits 4 version)) by reflexivity. cbn [fst snd].
  destruct (to_bytes_ok version 4) as [_ ->]; [rewrite pow_256_4; lia|].
  replace (version <? 1000) with true by (symmetry; apply Z.ltb_lt; lia).
  rewrite (read_prefix 4 (be_digits 4 (len keys))) by reflexivity.
  cbn [fst snd].
  destruct (to_bytes_ok (len keys) 4) as [_ ->].
  { rewrite pow_256_4. pose proof (len_nonneg keys). lia. }
  unfold len at 1. rewrite Nat2Z.id.
  split; [reflexivity|]. split; [apply read_keys_length|].
  intros i Hi. now apply read_keys_nth.
Qed.

End ParsedHeader.

(** ** The key the cipher is given *)

Section ValidKey.
Context `{Rnd : Random} {Kec : Keccak} {Mp : Msgpack} {Pre : PRE} {Sym : Symmetric}.
Variable self : Client.

Lemma search_valid_key_inv (path : option bytes) (enc_keys : list bytes)
  (valid_key : option bytes) :
  search_valid_key self path enc_keys None = Ok valid_key ->
  match valid_key with
  | Some dec_key =>
      len dec_key = 32
      /\ exists before enc_key after,
          enc_keys = before ++ enc_key :: after
          /\ Forall (nonconforming self path) before
          /\ decrypt_key self enc_key None path None = Ok dec_key
  | None => Forall (nonconforming self path) enc_keys
  end.
Proof.
  induction enc_keys as [|k ks IH]; cbn [search_valid_key].
  - intros [= <-]. constructor.
  - destruct (decrypt_key self k None path None) as [dk|] eqn:Ek;
      [|discriminate].
    cbn [bind]. destruct (len dk =? 32) eqn:El.
    + intros [= <-]. apply Z.eqb_eq in El. split; [exact El|].
      exists [], k, ks. repeat split; [constructor | exact Ek].
    + intros H. apply IH in H. apply Z.eqb_neq in El.
      assert (Hk : nonconforming self path k) by (exists dk; split; assumption).
      destruct valid_key as [dec_key|].
      * destruct H as (Hl & before & enc_key & after & -> & Hb & Hd).
        split; [exact Hl|].
        exists (k :: before), enc_key, after.
        repeat split; [constructor; assumption | exact Hd].
      * constructor; assumption.
Qed.

(** Whenever [decrypt] returns data, the cipher was given either [None]
    or a value of exactly 32 bytes that a wrapped key of the header unwraps
    to, every wrapped key before it having unwrapped to another length. *)
Theorem decrypt_key_is_conforming
  (edata : bytes) (path owner : option bytes) (data : bytes) :
  decrypt self edata path owner = Ok data ->
  exists version enc_keys ciphertext valid_key,
    _read_header (header_slice edata) = Ok (version, enc_keys)
    /\ search_valid_key self path enc_keys None = Ok valid_key
    /\ decrypt_bulk ciphertext valid_key = Ok data
    /\ match valid_key with
       | Some dec_key =>
           len dec_key = 32
           /\ exists before enc_key after,
               enc_keys = before ++ enc_key :: after
               /\ Forall (nonconforming self path) before
               /\ decrypt_key self enc_key None path None = Ok dec_key
       | None => Forall (nonconforming self path) enc_keys
       end.
Proof.
  unfold decrypt, header_slice.
  destruct (read 4 edata) as [length_bytes enc_file]. cbn [fst snd].
  destruct (read (int_from_bytes length_bytes) enc_file) as [header enc_file'].
  cbn [fst].
  destruct (_read_header header) as [[version enc_keys]|] eqn:Eh; [|discriminate].
  cbn [bind].
  destruct (msgpack_loads (fst (read_all enc_file'))) as [ciphertext|];
    [|discriminate].
  cbn [bind]. destruct (version <? 1000); [|discriminate].
  destruct (search_valid_key self path enc_keys None) as [valid_key|] eqn:Es;
    [|discriminate].
  cbn [bind].
  destruct (decrypt_bulk ciphertext valid_key) as [plaintext|] eqn:Eb;
    [|discriminate].
  cbn [bind]. intros [= <-].
  exists version, enc_keys, ciphertext, valid_key.
  repeat split; try assumption. now apply search_valid_key_inv.
Qed.

(** A wrapped key that fails to unwrap stops the search: the exception
    of the first such key, met before any key conforms, is the outcome of
    [decrypt]. *)
Theorem decrypt_key_error_propagates
  (header rest : bytes) (path owner : option bytes)
  (version : Z) (before after : list bytes) (enc_key : bytes)
  (ciphertext : pyobj) (e : exn) :
  len header < 2 ^ 32 ->
  _read_header header = Ok (version, before ++ enc_key :: after) ->
  msgpack_loads rest = Ok ciphertext ->
  Forall (nonconforming self path) before ->
  decrypt_key self enc_key None path None = Err e ->
  decrypt self (be_digits 4 (len header) ++ header ++ rest) path owner = Err e.
Proof.
  intros Hlen Hh Hc Hb Hk.
  rewrite (decrypt_framed self header rest path owner _ _ _ Hlen Hh Hc).
  assert (Hs : search_valid_key self path (before ++ enc_key :: after) None
               = Err e).
  { clear Hh. induction Hb as [|k ks (dk & Hd & Hn) _ IH];
      cbn [app search_valid_key].
    - now rewrite Hk.
    - rewrite Hd. cbn [bind].
      replace (len dk =? 32) with false by (symmetry; apply Z.eqb_neq; lia).
      exact IH. }
  now rewrite Hs.
Qed.

End ValidKey.

(** ** Wrapping and unwrapping one key *)

Section OneKey.
Context `{Rnd : Random} {Kec : Keccak} {Pre : PRE} {PL : PRELaws}.
Variable self : Client.

(** Without a path and without a public key, or with the empty one,
    [encrypt_key] wraps to the client's own public key, and [decrypt_key]
    without a path gives the key back. *)
Theorem key_roundtrip_own
  (key : bytes) (pubkey : option bytes) (s : entropy) :
  client_ok self ->
  len key = 32 ->
  pubkey = None \/ pubkey = Some [] ->
  exists enc_key s',
    encrypt_key self key pubkey None s = (Ok (OneKey enc_key), s')
    /\ wrapped_for (_pub_key self) key enc_key
    /\ len enc_key = KEY_LENGTH
    /\ forall pubkey' owner,
        decrypt_key self enc_key pubkey' None owner = Ok key.
Proof.
  intros Hself Hkey Hpub.
  destruct (pre_roundtrip (_priv_key self) key s Hkey) as (k & s' & Hk & Hlen & Hd).
  rewrite <- Hself in Hk.
  exists k, s'. split; [|split; [|split]].
  - cbn [encrypt_key]. unfold bindM.
    replace (encrypt_key_nopath self key pubkey s) with (Ok k, s');
      [reflexivity|].
    destruct Hpub as [-> | ->]; symmetry; exact Hk.
  - now exists s, s'.
  - exact Hlen.
  - intros pubkey' owner. exact Hd.
Qed.

(** With the public key of another party and no path, [encrypt_key] wraps
    to that key: the holder of the matching private key unwraps it. *)
Theorem key_for_recipient (sk key : bytes) (s : entropy) :
  len key = 32 ->
  exists enc_key s',
    encrypt_key self key (Some (priv2pub sk)) None s = (Ok (OneKey enc_key), s')
    /\ wrapped_for (priv2pub sk) key enc_key
    /\ len enc_key = KEY_LENGTH
    /\ pre_decrypt sk enc_key = Ok key.
Proof.
  intros Hkey.
  destruct (pre_roundtrip sk key s Hkey) as (k & s' & Hk & Hlen & Hd).
  exists k, s'. split; [|split; [|split]]; try assumption.
  - cbn [encrypt_key].
    rewrite encrypt_key_nopath_pubkey by apply priv2pub_nonempty.
    unfold bindM. now rewrite Hk.
  - now exists s, s'.
Qed.

End OneKey.

(** ** The bulk cipher *)

Section Bulk.
Context `{Rnd : Random} {Sym : Symmetric} {SL : SymmetricLaws}.

(** [decrypt_bulk] opens under the same 32-byte key what [encrypt_bulk]
    made; a key the cipher class refuses fails both with the exception of
    the class, before any data is touched or entropy drawn. *)
Theorem bulk_roundtrip :
  (forall data key s,
      len key = 32 ->
      exists edata s',
        encrypt_bulk data (Some key) s = (Ok edata, s')
        /\ len edata <= len data + symm_overhead
        /\ decrypt_bulk (PyBytes edata) (Some key) = Ok data)
  /\ (forall key e,
      _symm key = Err e ->
      (forall data s, encrypt_bulk data key s = (Err e, s))
      /\ (forall edata, decrypt_bulk edata key = Err e)).
Proof.
  split.
  - intros data key s Hkey.
    destruct (symm_roundtrip key data s Hkey) as (c & ct & s' & Hc & He & Hl & Hd).
    exists ct, s'. split; [|split; [exact Hl|]].
    + unfold encrypt_bulk, bindM, lift. now rewrite Hc.
    + unfold decrypt_bulk. now rewrite Hc.
  - intros key e He. split.
    + intros data s. unfold encrypt_bulk, bindM, lift. now rewrite He.
    + intros edata. unfold decrypt_bulk. now rewrite He.
Qed.

End Bulk.

(** ** More on containers *)

Section MoreContainers.
Context `{Rnd : Random} {Kec : Keccak} {Mp : Msgpack} {Pre : PRE} {Sym : Symmetric}.
Context {RL : RandomLaws} {ML : MsgpackLaws} {PL : PRELaws} {SL : SymmetricLaws}.

(** A client as [__init__] leaves it decrypts, without a path, what it
    encrypted without a path. *)
Theorem fresh_client_roundtrip
  (s0 s1 : entropy) (self : Client) (data : bytes) (s : entropy) :
  __init__ s0 = (Ok self, s1) ->
  len data + symm_overhead < 2 ^ 32 ->
  exists edata s',
    encrypt self data None s = (Ok edata, s')
    /\ forall owner, decrypt self edata None owner = Ok data.
Proof.
  intros Hinit Hdata. apply init_client_ok in Hinit.
  destruct (roundtrip_no_path self data None s Hinit Hdata) as (edata & s' & He & _).
  exists edata, s'. split; [exact He|]. intros owner.
  destruct (roundtrip_no_path self data owner s Hinit Hdata) as (e2 & s2 & He2 & Hd).
  rewrite He in He2. injection He2 as <- _. exact Hd.
Qed.

Variable self : Client.

(** The layout of a container: four bytes that hold the length of the
    header, the header, which parses to version 100, and an envelope whose
    content the bulk cipher opens under the data key. *)
Theorem encrypt_container_layout (data : bytes) (path : option bytes) (s : entropy) :
  client_ok self ->
  len data + symm_overhead < 2 ^ 32 ->
  (forall p, path = Some p -> 13 + KEY_LENGTH * len (_split_path p) < 2 ^ 32) ->
  exists edata s' header ciphertext enc_keys sealed,
    encrypt self data path s = (Ok edata, s')
    /\ edata = be_digits 4 (len header) ++ header ++ ciphertext
    /\ int_from_bytes (firstn 4 edata) = len header
    /\ header_slice edata = header
    /\ _read_header header = Ok (100, enc_keys)
    /\ msgpack_loads ciphertext = Ok (PyBytes sealed)
    /\ decrypt_bulk (PyBytes sealed) (Some (fst (utils_random 32 s))) = Ok data.
Proof.
  intros Hself Hdata Hpath.
  destruct (encrypt_parts self data path s Hself Hdata Hpath)
    as (c & ct & env & enc_keys & h & s0 & s1 & s' & He & _ & Hc & _ & Hd
        & Henv & Hlen & Hr & _).
  exists (be_digits 4 (len h) ++ h ++ env), s', h, env, enc_keys, ct.
  destruct (read_frame h env (len h)) as [H1 H2].
  { pose proof (len_nonneg h). lia. }
  split; [exact He|]. split; [reflexivity|]. split; [|split; [|split; [|split]]].
  - change (firstn 4 (be_digits 4 (len h) ++ h ++ env))
      with (fst (read 4 (be_digits 4 (len h) ++ h ++ env))).
    now rewrite H1.
  - unfold header_slice. rewrite H1. cbn [fst snd]. rewrite H2, read_exact.
    reflexivity.
  - exact Hr.
  - exact Henv.
  - unfold decrypt_bulk. now rewrite Hc.
Qed.

Lemma Forall2_length_eq {A B : Type} (R : A -> B -> Prop) (l : list A) (l' : list B) :
  Forall2 R l l' -> List.length l = List.length l'.
Proof. induction 1; [reflexivity|]. simpl. now f_equal. Qed.

(** With a path of several components [decrypt] gets to the last wrapped
    key, the one made for the full path, when the keys made for the shorter
    prefixes unwrap, under the private key of the full path, to values that
    are not 32 bytes long; the container then decrypts to the payload. *)
Theorem roundtrip_nested_path (data path : bytes) (s : entropy) :
  client_ok self ->
  len data + symm_overhead < 2 ^ 32 ->
  13 + KEY_LENGTH * len (_split_path path) < 2 ^ 32 ->
  path <> b "/" ->
  (forall key subpath enc_key,
      len key = 32 ->
      In subpath (removelast (_split_path path)) ->
      wrapped_for (_derive_path_key self subpath true) key enc_key ->
      nonconforming self (Some path) enc_key) ->
  exists edata s',
    encrypt self data (Some path) s = (Ok edata, s')
    /\ forall owner, decrypt self edata (Some path) owner = Ok data.
Proof.
  intros Hself Hdata Hsize Hne Hshort.
  destruct (encrypt_parts self data (Some path) s Hself Hdata)
    as (c & ct & env & enc_keys & h & s0 & s1 & s' & He & Hkey & Hc & _ & Hd
        & Henv & Hlen & Hr & Hf).
  { intros p [= <-]. exact Hsize. }
  exists (be_digits 4 (len h) ++ h ++ env), s'. split; [exact He|].
  intros owner.
  rewrite (decrypt_framed self h env (Some path) owner _ _ _ Hlen Hr Henv).
  pose proof (split_path_nonempty path) as Hnil.
  rewrite (app_removelast_last [] Hnil), (split_path_last path Hne) in Hf.
  apply Forall2_app_inv_l in Hf as (before & final & Hb & Hl & ->).
  inversion Hl as [|? k ? ks (_ & _ & Hk) Hnil']; subst. inversion Hnil'; subst.
  assert (Hbefore : Forall (nonconforming self (Some path)) before).
  { clear -Hb Hshort Hkey.
    induction Hb as [|subpath enc_key ? ? (Hw & _) _ IH]; constructor.
    - apply (Hshort (fst (utils_random 32 s)) subpath);
        [exact Hkey | now left | exact Hw].
    - apply IH. intros key sp ek Hlen Hin.
      apply Hshort; [exact Hlen | now right]. }
  rewrite (search_first self (Some path) before [] k _ None Hbefore Hk Hkey).
  cbn [bind]. unfold decrypt_bulk. rewrite Hc. exact Hd.
Qed.

(** The container made for the path [b'/'] is the container made for the
    empty path, and it decrypts under the empty path (under [b'/'] it does
    not, as the key is derived from [b'/']). *)
Theorem root_container_opens_under_empty_path (data : bytes) (s : entropy) :
  client_ok self ->
  len data + symm_overhead < 2 ^ 32 ->
  encrypt self data (Some (b "/")) s = encrypt self data (Some (b "")) s
  /\ exists edata s',
      encrypt self data (Some (b "/")) s = (Ok edata, s')
      /\ forall owner, decrypt self edata (Some (b "")) owner = Ok data.
Proof.
  intros Hself Hdata.
  assert (Heq : encrypt self data (Some (b "/")) s
                = encrypt self data (Some (b "")) s) by reflexivity.
  split; [exact Heq|].
  destruct (roundtrip_flat_path self data (b "") None s Hself Hdata)
    as (edata & s' & He & _); [intros []|].
  exists edata, s'. split; [now rewrite Heq|]. intros owner.
  destruct (roundtrip_flat_path self data (b "") owner s Hself Hdata)
    as (e2 & s2 & He2 & Hd2); [intros []|].
  rewrite He in He2. injection He2 as <- _. exact Hd2.
Qed.

End MoreContainers.

(** ** Damaged containers *)

Section Damage.
Context `{Rnd : Random} {Kec : Keccak} {Mp : Msgpack} {Pre : PRE} {Sym : Symmetric}.
Context {ML : MsgpackLaws} {MS : MsgpackStrict}.
Variable self : Client.

(** When [msgpack.loads] rejects what follows the header, [decrypt] fails:
    with that exception, or before it with the one of the header. *)
Lemma decrypt_rest_err (edata : bytes) (path owner : option bytes) (e : exn) :
  msgpack_loads
    (snd (read (int_from_bytes (fst (read 4 edata))) (snd (read 4 edata))))
  = Err e ->
  exists e', decrypt self edata path owner = Err e'.
Proof.
  unfold decrypt.
  destruct (read 4 edata) as [length_bytes enc_file]. cbn [fst snd].
  destruct (read (int_from_bytes length_bytes) enc_file) as [header rest].
  cbn [snd]. intros Hl.
  destruct (_read_header header) as [[version enc_keys]|e0]; cbn [bind].
  - cbn [read_all fst]. rewrite Hl. now exists e.
  - now exists e0.
Qed.

Lemma loads_empty (x header : bytes) :
  msgpack_dumps x = Ok header -> exists e, msgpack_loads [] = Err e.
Proof.
  intros Hx. pose proof (dumps_nonempty _ _ Hx) as Hne.
  destruct (loads_truncated x header 0 Hx) as [e He].
  - destruct header; [contradiction | cbn; lia].
  - exists e. exact He.
Qed.

(** A container cut short anywhere, and a container with bytes added at
    its end, is rejected: [decrypt] fails on every proper leading part of a
    container made of a header envelope and a ciphertext envelope, and on
    every extension of it. *)
Theorem damaged_container_rejected
  (x header y ciphertext : bytes) (path owner : option bytes) :
  msgpack_dumps x = Ok header ->
  msgpack_dumps y = Ok ciphertext ->
  len header < 2 ^ 32 ->
  let edata := be_digits 4 (len header) ++ header ++ ciphertext in
  (forall n, (n < List.length edata)%nat ->
     exists e, decrypt self (firstn n edata) path owner = Err e)
  /\ (forall extra, extra <> [] ->
     exists e, decrypt self (edata ++ extra) path owner = Err e).
Proof.
  intros Hx Hy Hlen edata.
  assert (Hl0 : 0 <= len header < 2 ^ 32) by (pose proof (len_nonneg header); lia).
  split.
  - intros n Hn. unfold edata in *.
    rewrite !length_app, be_digits_length in Hn.
    destruct (Nat.le_gt_cases n 4) as [Hle|Hgt].
    + (* the cut is inside the length field *)
      destruct (loads_empty x header Hx) as [e He].
      exists e. apply decrypt_header_err, read_header_loads_err.
      unfold header_slice.
      rewrite firstn_app, be_digits_length.
      replace (n - 4)%nat with 0%nat by lia. rewrite firstn_O, app_nil_r.
      assert (Hr : read 4 (firstn n (be_digits 4 (len header)))
                   = (firstn n (be_digits 4 (len header)), [])).
      { unfold read. cbn [Z.ltb Z.compare Z.to_nat Pos.to_nat Pos.iter_op Nat.add].
        change (Pos.to_nat 4) with 4%nat.
        rewrite firstn_all2, skipn_all2; [reflexivity | |];
          rewrite length_firstn, be_digits_length; lia. }
      rewrite Hr. cbn [fst snd]. unfold read.
      destruct (_ <? 0); cbn [fst]; [exact He|]. now rewrite firstn_nil.
    + rewrite firstn_app, be_digits_length.
      rewrite firstn_all2 by (rewrite be_digits_length; lia).
      destruct (read_frame (firstn (n - 4) (header ++ ciphertext)) []
                  (len header) Hl0) as [H1 H2].
      rewrite app_nil_r in H1.
      destruct (Nat.lt_ge_cases (n - 4) (List.length header)) as [Hin|Hout].
      * (* the cut is inside the header *)
        destruct (loads_truncated x header (n - 4) Hx Hin) as [e He].
        exists e. apply decrypt_header_err, read_header_loads_err.
        unfold header_slice. rewrite H1. cbn [fst snd]. rewrite H2.
        unfold read.
        replace (len header <? 0) with false by (symmetry; apply Z.ltb_ge; lia).
        cbn [fst]. rewrite firstn_firstn, firstn_app.
        unfold len. rewrite Nat2Z.id.
        replace (Nat.min (List.length header) (n - 4)) with (n - 4)%nat by lia.
        replace (n - 4 - List.length header)%nat with 0%nat by lia.
        rewrite firstn_O, app_nil_r. exact He.
      * (* the cut is inside the ciphertext envelope *)
        destruct (loads_truncated y ciphertext (n - 4 - List.length header) Hy)
          as [e He]; [lia|].
        apply (decrypt_rest_err _ path owner e).
        rewrite H1. cbn [fst snd]. rewrite H2.
        rewrite firstn_app, firstn_all2 by lia.
        rewrite read_exact. cbn [snd]. exact He.
  - intros extra Hextra.
    destruct (loads_extra y ciphertext extra Hy Hextra) as [e He].
    apply (decrypt_rest_err _ path owner e).
    unfold edata. rewrite <- !app_assoc.
    destruct (read_frame header (ciphertext ++ extra) (len header) Hl0)
      as [H1 H2].
    rewrite H1. cbn [fst snd]. rewrite H2, read_exact. cbn [snd]. exact He.
Qed.

End Damage.

(** ** Opening a file *)

Section Opening.
Context `{Rnd : Random} {Kec : Keccak} {Mp : Msgpack} {Pre : PRE} {Sym : Symmetric}.
Context {Fs : Files}.
Context {RL : RandomLaws} {ML : MsgpackLaws} {PL : PRELaws} {SL : SymmetricLaws}.
Variable self : Client.

(** [open] with a path reads the file at that path and derives the key
    from the same path: it returns the payload of a container that
    [encrypt] made for this path, when the path has no separator.  A
    descriptor that is [None] or 0 does not count as given. *)
Theorem open_path_roundtrip
  (data path : bytes) (pubkey : option bytes) (mode : string) (fd : option Z)
  (s s' : entropy) (edata : bytes) :
  client_ok self ->
  len data + symm_overhead < 2 ^ 32 ->
  ~ In slash path ->
  encrypt self data (Some path) s = (Ok edata, s') ->
  fd = None \/ fd = Some 0 ->
  file_read (Some (FilePath path)) mode = Ok (PyBytes edata) ->
  open self pubkey (Some path) mode fd = Ok data.
Proof.
  intros Hself Hdata Hflat He Hfd Hfile.
  destruct (roundtrip_flat_path self data path None s Hself Hdata Hflat)
    as (e2 & s2 & He2 & Hd).
  rewrite He in He2. injection He2 as <- _.
  unfold open.
  replace (fd_or_path fd (Some path)) with (Some (FilePath path))
    by (destruct Hfd as [-> | ->]; reflexivity).
  rewrite Hfile. exact Hd.
Qed.

(** [open] with a descriptor and no path reads from the descriptor and
    decrypts with the client's own key: it returns the payload of a
    container that [encrypt] made without a path. *)
Theorem open_fd_roundtrip
  (data : bytes) (pubkey : option bytes) (mode : string) (fd : Z)
  (s s' : entropy) (edata : bytes) :
  client_ok self ->
  len data + symm_overhead < 2 ^ 32 ->
  encrypt self data None s = (Ok edata, s') ->
  fd <> 0 ->
  file_read (Some (FileFd fd)) mode = Ok (PyBytes edata) ->
  open self pubkey None mode (Some fd) = Ok data.
Proof.
  intros Hself Hdata He Hfd Hfile.
  destruct (roundtrip_no_path self data None s Hself Hdata)
    as (e2 & s2 & He2 & Hd).
  rewrite He in He2. injection He2 as <- _.
  unfold open, fd_or_path.
  replace (fd =? 0) with false by (symmetry; now apply Z.eqb_neq).
  rewrite Hfile. exact Hd.
Qed.

End Opening.

Section OpeningFails.
Context `{Rnd : Random} {Kec : Keccak} {Mp : Msgpack} {Pre : PRE} {Sym : Symmetric}.
Context {Fs : Files}.
Variable self : Client.

(** [open] raises what opening or reading the file raises, and a
    [TypeError] when the file gives something other than bytes (a text
    mode); with a descriptor other than 0 the file at [path] is not read,
    though the key is still derived from [path]. *)
Theorem open_failures
  (pubkey path : option bytes) (mode : string) (fd : option Z) :
  (forall e,
      file_read (fd_or_path fd path) mode = Err e ->
      open self pubkey path mode fd = Err e)
  /\ (file_read (fd_or_path fd path) mode = Ok PyOther ->
      open self pubkey path mode fd = Err TypeError)
  /\ (forall n edata,
      fd = Some n -> n <> 0 ->
      file_read (Some (FileFd n)) mode = Ok (PyBytes edata) ->
      open self pubkey path mode fd = decrypt self edata path None).
Proof.
  split; [|split].
  - intros e H. unfold open. now rewrite H.
  - intros H. unfold open. now rewrite H.
  - intros n edata -> Hn H. unfold open, fd_or_path.
    replace (n =? 0) with false by (symmetry; now apply Z.eqb_neq).
    now rewrite H.
Qed.

End OpeningFails.

(** ** Choosing the algorithms *)

Section ChoosingAlgorithms.
Context {Imp : Importer}.

Lemma dict_get_in (items : list (string * pyval)) (k : string) (v : pyval) :
  dict_get items k = Ok v -> In (k, v) items.
Proof.
  induction items as [|[k' v'] items IH]; cbn [dict_get]; [discriminate|].
  destruct (String.eqb k' k) eqn:E.
  - apply String.eqb_eq in E. intros [= ->]. subst. now left.
  - intros H. right. now apply IH.
Qed.

(** [pre_from_algorithm] imports the module named after the cipher and
    calls its [PRE] with the entries of [algorithm['pre']] in their order,
    less the entry [cipher] and the entries that are [None]: the
    constructor never gets either, and gets every other entry unchanged. *)
Theorem pre_from_algorithm_kwargs
  (algorithm : pyval) (items : list (string * pyval)) (name : string) :
  subscript algorithm "pre" = Ok (VDict items) ->
  dict_get items "cipher" = Ok (VStr name) ->
  exists kw,
    pre_from_algorithm algorithm =
      (module <- import_module ("nkms.crypto.pre." ++ name)%string ;;
       module_PRE module kw)
    /\ (forall k v,
          In (k, v) kw <-> In (k, v) items /\ k <> "cipher"%string /\ v <> VNone)
    /\ (NoDup (map fst items) -> NoDup (map fst kw))
    /\ (List.length kw < List.length items)%nat.
Proof.
  intros Hpre Hcipher. exists (pre_kwargs items).
  split; [|split; [|split]].
  - unfold pre_from_algorithm. rewrite Hpre. cbn [bind dict_items subscript].
    rewrite Hcipher. reflexivity.
  - intros k v. unfold pre_kwargs. rewrite filter_In. cbn [fst snd].
    rewrite andb_true_iff, !negb_true_iff. split.
    + intros (Hin & Hk & Hv). repeat split; [exact Hin | |].
      * intros ->. now rewrite String.eqb_refl in Hk.
      * intros ->. discriminate.
    + intros (Hin & Hk & Hv). repeat split; [exact Hin | |].
      * now apply String.eqb_neq.
      * destruct v; try reflexivity. contradiction.
  - unfold pre_kwargs. clear. induction items as [|[k v] items IH]; intros Hnd.
    + constructor.
    + cbn [map fst] in Hnd. inversion Hnd as [|? ? Hnotin Hnd']; subst.
      cbn [filter fst snd].
      destruct (negb (String.eqb k "cipher") && negb (is_none v)).
      * cbn [map fst]. constructor; [|now apply IH].
        intros Hin. apply Hnotin. apply in_map_iff in Hin as ([k' v'] & Hk & Hin).
        apply filter_In in Hin as [Hin _]. apply in_map_iff. now exists (k', v').
      * now apply IH.
  - apply dict_get_in in Hcipher. clear Hpre. unfold pre_kwargs.
    induction items as [|[k v] items IH]; [destruct Hcipher|].
    cbn [filter fst snd List.length].
    pose proof (filter_length_le
      (fun kv => negb (String.eqb (fst kv) "cipher") && negb (is_none (snd kv)))
      items) as Hle.
    destruct Hcipher as [[= -> ->]|Hin].
    + cbn. lia.
    + specialize (IH Hin).
      destruct (negb (String.eqb k "cipher") && negb (is_none v));
        cbn [List.length]; lia.
Qed.

(** A description without the entry the function looks up fails with
    [KeyError] whatever can be imported; one that is not a dict, or whose
    cipher is not a str, with [TypeError]. *)
Theorem algorithm_lookup_errors (items : list (string * pyval)) :
  (forall e, dict_get items "pre" = Err e ->
     pre_from_algorithm (VDict items) = Err e /\ e = KeyError)
  /\ (forall e, dict_get items "symmetric" = Err e ->
     symmetric_from_algorithm (VDict items) = Err e /\ e = KeyError)
  /\ (forall entries,
     dict_get items "pre" = Ok (VDict entries) ->
     (forall v, ~ In ("cipher"%string, v) entries) ->
     pre_from_algorithm (VDict items) = Err KeyError)
  /\ (forall entries v,
     dict_get items "symmetric" = Ok (VDict entries) ->
     dict_get entries "cipher" = Ok v ->
     (forall name, v <> VStr name) ->
     symmetric_from_algorithm (VDict items) = Err TypeError).
Proof.
  assert (Hkey : forall l k e, dict_get l k = Err e -> e = KeyError).
  { induction l as [|[k' v'] l IH]; cbn [dict_get]; intros k e.
    - now intros [= <-].
    - destruct (String.eqb k' k); [discriminate | apply IH]. }
  assert (Hmiss : forall l k, (forall v, ~ In (k, v) l) -> dict_get l k = Err KeyError).
  { induction l as [|[k' v'] l IH]; cbn [dict_get]; intros k Hn; [reflexivity|].
    destruct (String.eqb k' k) eqn:E.
    - apply String.eqb_eq in E. subst. exfalso. apply (Hn v'). now left.
    - apply IH. intros v Hin. apply (Hn v). now right. }
  split; [|split; [|split]].
  - intros e H. split; [|now apply Hkey in H].
    unfold pre_from_algorithm. cbn [subscript]. now rewrite H.
  - intros e H. split; [|now apply Hkey in H].
    unfold symmetric_from_algorithm. cbn [subscript]. now rewrite H.
  - intros entries H Hn. unfold pre_from_algorithm. cbn [subscript].
    rewrite H. cbn [bind dict_items subscript]. now rewrite (Hmiss _ _ Hn).
  - intros entries v H Hv Hstr. unfold symmetric_from_algorithm.
    cbn [subscript]. rewrite H. cbn [bind subscript]. rewrite Hv. cbn [bind].
    destruct v; try reflexivity. now destruct (Hstr s).
Qed.

End ChoosingAlgorithms.

(** ** The reference key wrapping and cipher satisfy the laws *)

Section ReferenceCrypto.
Import Reference.

Lemma fit_length (n : nat) (x : bytes) : List.length (fit n x) = n.
Proof.
  unfold fit. rewrite length_firstn, length_app, repeat_length. lia.
Qed.

Lemma fit_exact (n : nat) (x : bytes) (m : nat) :
  List.length x = m -> (m <= n)%nat -> firstn m (fit n x) = x.
Proof.
  intros Hx Hle. unfold fit. rewrite firstn_firstn.
  replace (Nat.min m n) with m by lia.
  rewrite firstn_app, firstn_all2, <- Hx, Nat.sub_diag by lia.
  cbn [firstn]. apply app_nil_r.
Qed.

Lemma wrap_tag (pubkey m : bytes) : firstn 32 (wrap pubkey m) = fit 32 pubkey.
Proof.
  unfold wrap. rewrite firstn_app, fit_length, Nat.sub_diag, firstn_O, app_nil_r.
  apply firstn_all2. rewrite fit_length. lia.
Qed.

Lemma wrap_body (pubkey m : bytes) : skipn 33 (wrap pubkey m) = fit 115 m.
Proof.
  unfold wrap. rewrite skipn_app, fit_length.
  rewrite skipn_all2 by (rewrite fit_length; lia). reflexivity.
Qed.

Lemma wrap_size (pubkey m : bytes) : nth 32 (wrap pubkey m) x00 = byte_of_Z (len m).
Proof.
  unfold wrap. rewrite app_nth2 by (rewrite fit_length; lia).
  rewrite fit_length. reflexivity.
Qed.

Lemma wrap_length (pubkey m : bytes) : len (wrap pubkey m) = KEY_LENGTH.
Proof.
  unfold wrap, len. rewrite !length_app, !fit_length. reflexivity.
Qed.

(** Unwrapping with a private key whose public key has another tag gives
    31 bytes of the padded message. *)
Lemma unwrap_other (pubkey sk m : bytes) :
  bytes_eqb (fit 32 pubkey) (fit 32 (pub_of sk)) = false ->
  unwrap pub_of sk (wrap pubkey m) = Ok (firstn 31 (fit 115 m)).
Proof.
  intros H. unfold unwrap. now rewrite wrap_tag, H, wrap_body.
Qed.

Lemma pub_of_nonempty (sk : bytes) : pub_of sk <> [].
Proof.
  intros H. apply (f_equal (@List.length byte)) in H.
  unfold pub_of, digest in H. rewrite be_digits_length in H. discriminate.
Qed.

Lemma reference_pre_laws : @PRELaws random pre.
Proof.
  constructor; cbn [priv2pub pre_encrypt pre_decrypt pre].
  - apply pub_of_nonempty.
  - intros sk m s Hm. exists (wrap (pub_of sk) m), (s + 1).
    split; [reflexivity|]. split; [apply wrap_length|].
    unfold unwrap. rewrite wrap_tag, bytes_eqb_refl, wrap_size, wrap_body, Hm.
    change (Z.to_nat (Z_of_byte (byte_of_Z 32))) with 32%nat.
    f_equal. apply fit_exact; unfold len in Hm; lia.
Qed.

Lemma box_length (key data : bytes) (s : Z) :
  len (box key data s) = 24 + len key + len data.
Proof. unfold box. rewrite !len_app, be_digits_len. lia. Qed.

Lemma box_tag (key data : bytes) (s : Z) :
  len key = 32 -> firstn 32 (skipn 24 (box key data s)) = key.
Proof.
  intros Hk. unfold box, len in *.
  rewrite skipn_app, be_digits_length, Nat.sub_diag.
  rewrite skipn_all2 by (rewrite be_digits_length; lia). cbn [skipn app].
  rewrite firstn_app. replace (32 - List.length key)%nat with 0%nat by lia.
  rewrite firstn_O, app_nil_r. apply firstn_all2. lia.
Qed.

Lemma box_data (key data : bytes) (s : Z) :
  len key = 32 -> skipn 56 (box key data s) = data.
Proof.
  intros Hk. unfold box, len in *.
  rewrite app_assoc, skipn_app.
  rewrite skipn_all2 by (rewrite length_app, be_digits_length; lia).
  rewrite length_app, be_digits_length.
  replace (56 - (24 + List.length key))%nat with 0%nat by lia. reflexivity.
Qed.

Lemma unbox_box (key key' data : bytes) (s : Z) :
  len key = 32 ->
  unbox key' (PyBytes (box key data s))
  = if bytes_eqb key key' then Ok data else Err CryptoError.
Proof.
  intros Hk. unfold unbox. rewrite box_length, Hk.
  replace (24 + 32 + len data <? 56) with false
    by (symmetry; apply Z.ltb_ge; pose proof (len_nonneg data); lia).
  now rewrite box_tag, box_data.
Qed.

Lemma new_cipher_ok (key cipher : bytes) :
  new_cipher (Some key) = Ok cipher -> cipher = key /\ len key = 32.
Proof.
  unfold new_cipher. destruct (len key =? 32) eqn:E; [|discriminate].
  intros [= <-]. split; [reflexivity | now apply Z.eqb_eq].
Qed.

Lemma reference_symmetric_laws : @SymmetricLaws random symmetric.
Proof.
  constructor. cbn [_symm cipher_encrypt cipher_decrypt symm_overhead symmetric].
  intros k d s Hk. exists k, (box k d s), (s + 1).
  repeat split.
  - unfold new_cipher. now rewrite Hk.
  - rewrite box_length. lia.
  - rewrite unbox_box by assumption. now rewrite bytes_eqb_refl.
Qed.

(** The reference cipher opens a ciphertext under the key that made it
    and under no other. *)
Lemma reference_cipher_authentic
  (data key cipher edata : bytes) (s0 s1 : Z) (key' : option bytes) :
  len key = 32 ->
  new_cipher (Some key) = Ok cipher ->
  seal cipher data s0 = (Ok edata, s1) ->
  key' <> Some key ->
  @decrypt_bulk random symmetric (PyBytes edata) key' <> Ok data.
Proof.
  intros Hk Hc Hs Hne. apply new_cipher_ok in Hc as [-> _].
  injection Hs as <- _. unfold decrypt_bulk.
  cbn [_symm cipher_decrypt symmetric]. unfold new_cipher.
  destruct key' as [k'|]; [|discriminate].
  destruct (len k' =? 32); [|discriminate]. cbn [bind].
  rewrite unbox_box by assumption.
  rewrite bytes_eqb_neq by congruence. discriminate.
Qed.

Lemma reference_client_ok : @client_ok random pre client.
Proof. reflexivity. Qed.

(** In the reference client the key derived for [b'/'] does not unwrap
    what was wrapped for [b'']. *)
Lemma reference_root_key_mismatch (key enc_key : bytes) :
  len key = 32 ->
  @wrapped_for random pre (@_derive_path_key random keccak pre client (b "") true)
               key enc_key ->
  @pre_decrypt random pre
    (@_derive_path_key random keccak pre client (b "/") false) enc_key
  <> Ok key.
Proof.
  intros Hk (s & s' & Hw). cbn [pre_encrypt pre] in Hw. injection Hw as <- _.
  cbn [pre_decrypt pre]. rewrite unwrap_other by (vm_compute; reflexivity).
  intros H.
  assert (H' : List.length (firstn 31 (fit 115 key)) = List.length key)
    by congruence.
  rewrite length_firstn in H'. unfold len in Hk. lia.
Qed.

(** In the reference key wrapping a key made for a prefix with another
    tag unwraps, under the key of the path, to 31 bytes. *)
Lemma reference_prefix_nonconforming (path subpath key enc_key : bytes) :
  bytes_eqb
    (fit 32 (@_derive_path_key random keccak pre client subpath true))
    (fit 32 (pub_of (@_derive_path_key random keccak pre client path false)))
  = false ->
  @wrapped_for random pre
    (@_derive_path_key random keccak pre client subpath true) key enc_key ->
  @nonconforming random keccak pre client (Some path) enc_key.
Proof.
  intros Htag (s & s' & Hw). cbn [pre_encrypt pre] in Hw. injection Hw as <- _.
  exists (firstn 31 (fit 115 key)). split.
  - unfold decrypt_key. cbn [pre_decrypt pre]. now apply unwrap_other.
  - unfold len. rewrite length_firstn. lia.
Qed.

End ReferenceCrypto.

(** ** The client on the reference collaborators *)

#[local] Existing Instances
  Reference.random Reference.keccak Reference.msgpack Reference.pre
  Reference.symmetric.

(** A container with a header of version 100 that holds no wrapped key and
    an empty ciphertext envelope. *)
Example keyless_header_parses :
  _read_header [xc4; x08; x00; x00; x00; x64; x00; x00; x00; x00] = Ok (100, []).
Proof. reflexivity. Qed.

Lemma roundtrip_root_path_fails_witness :
  exists edata s',
    encrypt Reference.client (b "hello world!") (Some (b "/")) 0 = (Ok edata, s')
    /\ decrypt Reference.client edata (Some (b "/")) None <> Ok (b "hello world!").
Proof.
  apply (@roundtrip_root_path_fails _ _ _ _ _ reference_random_laws
           reference_msgpack_laws reference_pre_laws reference_symmetric_laws
           Reference.client (b "hello world!") 0).
  - reflexivity.
  - vm_compute. reflexivity.
  - apply reference_root_key_mismatch.
  - apply reference_cipher_authentic.
Defined.

(** On the reference collaborators the root path runs into the cipher
    class: no wrapped key conforms and the key it is built from is [None]. *)
Example root_path_run :
  (edata <- fst (encrypt Reference.client (b "hello world!") (Some (b "/")) 0) ;;
   decrypt Reference.client edata (Some (b "/")) None)
  = Err TypeError.
Proof. vm_compute. reflexivity. Qed.

Lemma reference_nested_nonconforming (path subpath : bytes) :
  bytes_eqb
    (Reference.fit 32 (_derive_path_key Reference.client subpath true))
    (Reference.fit 32
       (Reference.pub_of (_derive_path_key Reference.client path false)))
  = false ->
  nonconforming Reference.client (Some path)
                (ReferenceSystem.nested_wrapped subpath).
Proof.
  intros Htag.
  apply (reference_prefix_nonconforming path subpath ReferenceSystem.nested_key);
    [exact Htag|].
  exists 0, 1. reflexivity.
Qed.

(** The container for [b'/foo/bar'] read with the path [b'/foo']: the first
    candidate is passed over, the second conforms, the third is not tried.
    Read with [b'/foo/bar'] by a key wrapping that raises on a foreign
    blob: the first candidate ends the search.  Read with [b'/zzz']: no
    candidate conforms and the cipher class is given [None]. *)
Lemma decrypt_key_search_witness :
  let edata :=
    be_digits 4 (len ReferenceSystem.nested_header)
    ++ ReferenceSystem.nested_header ++ ReferenceSystem.nested_envelope in
  (search_valid_key Reference.client (Some (b "/foo"))
     ReferenceSystem.nested_keys None
   = Ok (Some ReferenceSystem.nested_key)
   /\ decrypt Reference.client edata (Some (b "/foo")) None
      = decrypt_bulk (PyBytes ReferenceSystem.nested_sealed)
                     (Some ReferenceSystem.nested_key))
  /\ (@search_valid_key Reference.random Reference.keccak
        ReferenceSystem.raising_pre Reference.client (Some (b "/foo/bar"))
        ReferenceSystem.nested_keys None
      = Err Reference.ValueError
      /\ @decrypt Reference.random Reference.keccak Reference.msgpack
           ReferenceSystem.raising_pre Reference.symmetric Reference.client
           edata (Some (b "/foo/bar")) None
         = Err Reference.ValueError)
  /\ (search_valid_key Reference.client (Some (b "/zzz"))
        ReferenceSystem.nested_keys None
      = Ok None
      /\ decrypt Reference.client edata (Some (b "/zzz")) None
         = decrypt_bulk (PyBytes ReferenceSystem.nested_sealed) None).
Proof.
  intros edata.
  assert (Hlen : len ReferenceSystem.nested_header < 2 ^ 32)
    by (vm_compute; reflexivity).
  assert (Hh : @_read_header Reference.msgpack ReferenceSystem.nested_header
               = Ok (100, ReferenceSystem.nested_keys))
    by (vm_compute; reflexivity).
  assert (Hc : @msgpack_loads Reference.msgpack ReferenceSystem.nested_envelope
               = Ok (PyBytes ReferenceSystem.nested_sealed))
    by (vm_compute; reflexivity).
  split; [|split].
  - destruct (@decrypt_key_search Reference.random Reference.keccak
                Reference.msgpack Reference.pre Reference.symmetric
                Reference.client ReferenceSystem.nested_header
                ReferenceSystem.nested_envelope (Some (b "/foo")) None 100
                ReferenceSystem.nested_keys
                (PyBytes ReferenceSystem.nested_sealed) Hlen Hh Hc)
      as (Hfirst & _).
    apply (Hfirst [ReferenceSystem.nested_wrapped (b "")]
                  (ReferenceSystem.nested_wrapped (b "/foo"))
                  [ReferenceSystem.nested_wrapped (b "/foo/bar")]).
    + reflexivity.
    + constructor; [|constructor].
      apply reference_nested_nonconforming. vm_compute. reflexivity.
    + vm_compute. reflexivity.
    + reflexivity.
  - destruct (@decrypt_key_search Reference.random Reference.keccak
                Reference.msgpack ReferenceSystem.raising_pre
                Reference.symmetric
                Reference.client ReferenceSystem.nested_header
                ReferenceSystem.nested_envelope (Some (b "/foo/bar")) None 100
                ReferenceSystem.nested_keys
                (PyBytes ReferenceSystem.nested_sealed) Hlen Hh Hc)
      as (_ & Hraise & _).
    apply (Hraise [] (ReferenceSystem.nested_wrapped (b ""))
                  [ReferenceSystem.nested_wrapped (b "/foo");
                   ReferenceSystem.nested_wrapped (b "/foo/bar")]).
    + reflexivity.
    + constructor.
    + vm_compute. reflexivity.
  - destruct (@decrypt_key_search Reference.random Reference.keccak
                Reference.msgpack Reference.pre Reference.symmetric
                Reference.client ReferenceSystem.nested_header
                ReferenceSystem.nested_envelope (Some (b "/zzz")) None 100
                ReferenceSystem.nested_keys
                (PyBytes ReferenceSystem.nested_sealed) Hlen Hh Hc)
      as (_ & _ & Hnone & _).
    apply Hnone.
    repeat constructor;
      apply reference_nested_nonconforming; vm_compute; reflexivity.
Defined.

(** The second candidate is the key under which the payload opens. *)
Example nested_prefix_run :
  decrypt Reference.client
    (be_digits 4 (len ReferenceSystem.nested_header)
     ++ ReferenceSystem.nested_header ++ ReferenceSystem.nested_envelope)
    (Some (b "/foo")) None
  = Ok (b "hello world!").
Proof. vm_compute. reflexivity. Qed.

(** C2 as stated fails: a header without a conforming candidate does not
    end in a KeyNotFoundError. *)
Lemma no_key_not_found_error :
  decrypt Reference.client
    [x00; x00; x00; x0a; xc4; x08; x00; x00; x00; x64; x00; x00; x00; x00;
     xc4; x00]
    None None
  <> Err (Raise "KeyNotFoundError").
Proof. vm_compute. discriminate. Qed.

Lemma encrypt_wrapped_keys_witness :
  exists edata s' enc_keys,
    encrypt Reference.client (b "hello world!") (Some (b "/foo/bar")) 0
    = (Ok edata, s')
    /\ wrapped_keys edata = Ok enc_keys
    /\ len enc_keys = 3.
Proof.
  destruct (@encrypt_wrapped_keys _ _ _ _ _ reference_random_laws
              reference_msgpack_laws reference_pre_laws
              reference_symmetric_laws Reference.client
              (b "hello world!") (Some (b "/foo/bar")) 0)
    as (edata & s' & enc_keys & He & Hw & Hn & _).
  - reflexivity.
  - vm_compute. reflexivity.
  - intros p [= <-]. vm_compute. reflexivity.
  - exists edata, s', enc_keys. repeat split; assumption.
Defined.

Lemma encrypt_key_path_ignores_pubkey_witness :
  encrypt_key Reference.client (repeat x2a 32) (Some (b "some public key"))
              (Some (b "/foo")) 0
  = encrypt_key Reference.client (repeat x2a 32) None (Some (b "/foo")) 0.
Proof.
  apply (@encrypt_key_path_ignores_pubkey Reference.random Reference.keccak
           Reference.pre reference_pre_laws Reference.client).
Defined.

Lemma short_reads_do_not_fail_witness :
  (exists enc_keys,
     _read_header [xc4; x09; x00; x00; x00; x64; x00; x00; x00; x02; x07]
     = Ok (100, enc_keys)
     /\ len enc_keys = 2)
  /\ _read_header [x01] = Err TypeError
  /\ exists e,
      decrypt Reference.client
        ([x00; x00; x00; x0b]
         ++ [xc4; x08; x00; x00; x00; x64; x00; x00; x00; x00] ++ [xc4; x00])
        None None
      = Err e.
Proof.
  destruct (@short_reads_do_not_fail _ _ _ _ _ reference_msgpack_laws
              reference_msgpack_strict Reference.client)
    as (_ & Hshort & Hlength & Hfail).
  split; [|split].
  - destruct (Hshort [xc4; x09; x00; x00; x00; x64; x00; x00; x00; x02; x07]
                [x00; x00; x00; x64; x00; x00; x00; x02; x07])
      as (enc_keys & Hr & Hn & _).
    + reflexivity.
    + vm_compute. reflexivity.
    + exists enc_keys. split; assumption.
  - exact (Hfail [x01]).
  - destruct (Hlength [x00; x00; x00; x64; x00; x00; x00; x00]
                [xc4; x08; x00; x00; x00; x64; x00; x00; x00; x00]
                [] [xc4; x00] 11 None None) as (e & _ & He).
    + reflexivity.
    + reflexivity.
    + lia.
    + vm_compute. discriminate.
    + exists e. exact He.
Defined.

(** C6 as stated fails: the payload says one key and holds none of its 148
    bytes, and the header parses, to an empty key. *)
Lemma short_header_parses :
  msgpack_loads [xc4; x08; x00; x00; x00; x64; x00; x00; x00; x01]
  = Ok (PyBytes [x00; x00; x00; x64; x00; x00; x00; x01])
  /\ _read_header [xc4; x08; x00; x00; x00; x64; x00; x00; x00; x01]
     = Ok (100, [[]]).
Proof. split; reflexivity. Qed.

(** The same header in a container: the empty key unwraps to nothing,
    no candidate conforms, and the cipher class is given [None]. *)
Example short_header_run :
  decrypt Reference.client
    [x00; x00; x00; x0a; xc4; x08; x00; x00; x00; x64; x00; x00; x00; x01;
     xc4; x00]
    None None
  = Err TypeError.
Proof. vm_compute. reflexivity. Qed.

(** The keyless container with its header length changed from 10 to 11. *)
Example changed_header_length_run :
  decrypt Reference.client
    [x00; x00; x00; x0b; xc4; x08; x00; x00; x00; x64; x00; x00; x00; x00;
     xc4; x00]
    None None
  = Err Reference.ExtraData.
Proof. vm_compute. reflexivity. Qed.

Example init_reference_client : fst (__init__ 1) = Ok Reference.client.
Proof. reflexivity. Qed.

Lemma unsupported_version_unbound_witness :
  _read_header [xc4; x04; x00; x00; x03; xe8] = Err UnboundLocalError.
Proof.
  destruct (@unsupported_version_unbound _ _ _ _ _ Reference.client) as [_ H].
  destruct (H [xc4; x04; x00; x00; x03; xe8] [x00; x00; x03; xe8]) as [Hr _].
  - reflexivity.
  - vm_compute. discriminate.
  - exact Hr.
Defined.

(** C7 as stated fails: the failure at version 1000 is not of a type of
    its own. *)
Lemma unsupported_version_untyped :
  _build_header [] 1000 <> Err (Raise "UnsupportedVersionError").
Proof. vm_compute. discriminate. Qed.

(** C8 as stated fails: [revoke] returns. *)
Lemma policy_operation_returns :
  revoke (b "recipient public key") None <> Err (Raise "UnimplementedError").
Proof. discriminate. Qed.

Example grant_returns_none :
  grant Reference.client (b "recipient public key") None = Ok None.
Proof. reflexivity. Qed.

(** ** More runs on the reference collaborators *)

#[local] Existing Instances ReferenceSystem.files ReferenceSystem.importer.

Lemma split_path_prefixes_grow_witness : NoDup (_split_path (b "/foo/bar")).
Proof. exact (proj2 (proj2 (split_path_prefixes_grow (b "/foo/bar")))). Defined.

Lemma split_path_same_prefixes_witness :
  b "/" = b "" \/ (b "/" = b "/" /\ b "" = b "") \/ (b "/" = b "" /\ b "" = b "/").
Proof. exact (proj1 (split_path_same_prefixes (b "/") (b "")) eq_refl). Defined.

Lemma read_header_bounds_witness :
  0 <= 100 < 1000
  /\ len [b ""] < 2 ^ 32
  /\ Forall (fun k => len k <= KEY_LENGTH) [b ""].
Proof.
  apply (@read_header_bounds Reference.msgpack
           [xc4; x08; x00; x00; x00; x64; x00; x00; x00; x01]).
  reflexivity.
Defined.

Lemma header_keeps_concatenation_witness :
  exists header parsed,
    _build_header [b "ab"; b "c"] 100 = Ok (header, len header)
    /\ _read_header header = Ok (100, parsed)
    /\ List.length parsed = 2%nat
    /\ forall i, (i < 2)%nat ->
         nth i parsed [] = firstn 148 (skipn (148 * i) (b "abc")).
Proof.
  apply (@header_keeps_concatenation Reference.msgpack reference_msgpack_laws
           [b "ab"; b "c"] 100).
  - lia.
  - vm_compute. reflexivity.
  - vm_compute. reflexivity.
Defined.

(** The boundary between the two keys is gone. *)
Example header_boundary_lost :
  (hl <- _build_header [b "ab"; b "c"] 100 ;; _read_header (fst hl))
  = Ok (100, [b "abc"; b ""]).
Proof. reflexivity. Qed.

Lemma decrypt_key_is_conforming_witness :
  exists version enc_keys ciphertext valid_key,
    _read_header (header_slice ReferenceSystem.stored) = Ok (version, enc_keys)
    /\ search_valid_key Reference.client (Some (b "secret.bin")) enc_keys None
       = Ok valid_key
    /\ decrypt_bulk ciphertext valid_key = Ok (b "hello world!")
    /\ match valid_key with
       | Some dec_key =>
           len dec_key = 32
           /\ exists before enc_key after,
               enc_keys = before ++ enc_key :: after
               /\ Forall (nonconforming Reference.client (Some (b "secret.bin")))
                         before
               /\ decrypt_key Reference.client enc_key None
                    (Some (b "secret.bin")) None = Ok dec_key
       | None =>
           Forall (nonconforming Reference.client (Some (b "secret.bin"))) enc_keys
       end.
Proof.
  apply (@decrypt_key_is_conforming _ _ _ _ _ Reference.client
           ReferenceSystem.stored (Some (b "secret.bin")) None).
  vm_compute. reflexivity.
Defined.

Lemma decrypt_key_error_propagates_witness :
  @decrypt Reference.random Reference.keccak Reference.msgpack
    ReferenceSystem.strict_pre Reference.symmetric Reference.client
    ([x00; x00; x00; x0a]
     ++ [xc4; x08; x00; x00; x00; x64; x00; x00; x00; x01] ++ [xc4; x00])
    None None
  = Err Reference.ValueError.
Proof.
  apply (@decrypt_key_error_propagates Reference.random Reference.keccak
           Reference.msgpack ReferenceSystem.strict_pre Reference.symmetric
           Reference.client
           [xc4; x08; x00; x00; x00; x64; x00; x00; x00; x01] [xc4; x00]
           None None 100 [] [] (b "") (PyBytes [])).
  - vm_compute. reflexivity.
  - reflexivity.
  - reflexivity.
  - constructor.
  - reflexivity.
Defined.

Lemma key_roundtrip_own_witness :
  exists enc_key s',
    encrypt_key Reference.client (repeat x2a 32) (Some (b "")) None 0
    = (Ok (OneKey enc_key), s')
    /\ wrapped_for (_pub_key Reference.client) (repeat x2a 32) enc_key
    /\ len enc_key = KEY_LENGTH
    /\ forall pubkey' owner,
        decrypt_key Reference.client enc_key pubkey' None owner
        = Ok (repeat x2a 32).
Proof.
  apply (@key_roundtrip_own Reference.random Reference.keccak Reference.pre
           reference_pre_laws Reference.client).
  - reflexivity.
  - reflexivity.
  - right. reflexivity.
Defined.

Lemma key_for_recipient_witness :
  exists enc_key s',
    encrypt_key Reference.client (repeat x2a 32)
      (Some (priv2pub (b "recipient private key"))) None 0
    = (Ok (OneKey enc_key), s')
    /\ wrapped_for (priv2pub (b "recipient private key")) (repeat x2a 32) enc_key
    /\ len enc_key = KEY_LENGTH
    /\ pre_decrypt (b "recipient private key") enc_key = Ok (repeat x2a 32).
Proof.
  apply (@key_for_recipient Reference.random Reference.keccak Reference.pre
           reference_pre_laws Reference.client).
  reflexivity.
Defined.

Lemma bulk_roundtrip_witness :
  exists edata s',
    encrypt_bulk (b "hello world!") (Some (repeat x2a 32)) 0 = (Ok edata, s')
    /\ len edata <= len (b "hello world!") + symm_overhead
    /\ decrypt_bulk (PyBytes edata) (Some (repeat x2a 32)) = Ok (b "hello world!").
Proof.
  apply (proj1 (@bulk_roundtrip Reference.random Reference.symmetric
                  reference_symmetric_laws)).
  reflexivity.
Defined.

Lemma fresh_client_roundtrip_witness :
  exists edata s',
    encrypt Reference.client (b "hello world!") None 0 = (Ok edata, s')
    /\ forall owner,
        decrypt Reference.client edata None owner = Ok (b "hello world!").
Proof.
  apply (@fresh_client_roundtrip _ _ _ _ _ reference_random_laws
           reference_msgpack_laws reference_pre_laws reference_symmetric_laws
           1 2 Reference.client).
  - reflexivity.
  - vm_compute. reflexivity.
Defined.

Lemma encrypt_container_layout_witness :
  exists edata s' header ciphertext enc_keys sealed,
    encrypt Reference.client (b "hello world!") (Some (b "/foo")) 0
    = (Ok edata, s')
    /\ edata = be_digits 4 (len header) ++ header ++ ciphertext
    /\ int_from_bytes (firstn 4 edata) = len header
    /\ header_slice edata = header
    /\ _read_header header = Ok (100, enc_keys)
    /\ msgpack_loads ciphertext = Ok (PyBytes sealed)
    /\ decrypt_bulk (PyBytes sealed)
         (Some (fst (@utils_random Reference.random 32 0)))
       = Ok (b "hello world!").
Proof.
  apply (@encrypt_container_layout _ _ _ _ _ reference_random_laws
           reference_msgpack_laws reference_pre_laws reference_symmetric_laws
           Reference.client).
  - reflexivity.
  - vm_compute. reflexivity.
  - intros p [= <-]. vm_compute. reflexivity.
Defined.

Lemma roundtrip_nested_path_witness :
  exists edata s',
    encrypt Reference.client (b "hello world!") (Some (b "/foo/bar")) 0
    = (Ok edata, s')
    /\ forall owner,
        decrypt Reference.client edata (Some (b "/foo/bar")) owner
        = Ok (b "hello world!").
Proof.
  apply (@roundtrip_nested_path _ _ _ _ _ reference_random_laws
           reference_msgpack_laws reference_pre_laws reference_symmetric_laws
           Reference.client).
  - reflexivity.
  - vm_compute. reflexivity.
  - vm_compute. reflexivity.
  - discriminate.
  - intros key subpath enc_key _ Hin.
    change (removelast (_split_path (b "/foo/bar"))) with [b ""; b "/foo"] in Hin.
    destruct Hin as [<- | [<- | []]];
      apply reference_prefix_nonconforming; vm_compute; reflexivity.
Defined.

Lemma root_container_opens_under_empty_path_witness :
  exists edata s',
    encrypt Reference.client (b "hello world!") (Some (b "/")) 0 = (Ok edata, s')
    /\ forall owner,
        decrypt Reference.client edata (Some (b "")) owner = Ok (b "hello world!").
Proof.
  apply (@root_container_opens_under_empty_path _ _ _ _ _ reference_random_laws
           reference_msgpack_laws reference_pre_laws reference_symmetric_laws
           Reference.client).
  - reflexivity.
  - vm_compute. reflexivity.
Defined.

Lemma damaged_container_rejected_witness :
  exists e,
    decrypt Reference.client
      (firstn 7 ([x00; x00; x00; x0a]
                 ++ [xc4; x08; x00; x00; x00; x64; x00; x00; x00; x00]
                 ++ [xc4; x00]))
      None None
    = Err e.
Proof.
  apply (proj1 (@damaged_container_rejected _ _ _ _ _ reference_msgpack_laws
                  reference_msgpack_strict Reference.client
                  [x00; x00; x00; x64; x00; x00; x00; x00]
                  [xc4; x08; x00; x00; x00; x64; x00; x00; x00; x00]
                  [] [xc4; x00] None None eq_refl eq_refl eq_refl)).
  vm_compute. lia.
Defined.

Lemma open_path_roundtrip_witness :
  open Reference.client None (Some (b "secret.bin")) "rb" None
  = Ok (b "hello world!").
Proof.
  apply (@open_path_roundtrip Reference.random Reference.keccak
           Reference.msgpack Reference.pre Reference.symmetric
           ReferenceSystem.files reference_random_laws
           reference_msgpack_laws reference_pre_laws reference_symmetric_laws
           Reference.client (b "hello world!") (b "secret.bin") None "rb" None
           0
           (snd (@encrypt Reference.random Reference.keccak Reference.msgpack
                   Reference.pre Reference.symmetric Reference.client
                   (b "hello world!") (Some (b "secret.bin")) 0))
           ReferenceSystem.stored).
  - reflexivity.
  - vm_compute. reflexivity.
  - intros H. vm_compute in H. decompose [or] H; discriminate || assumption.
  - vm_compute. reflexivity.
  - left. reflexivity.
  - reflexivity.
Defined.

Lemma open_fd_roundtrip_witness :
  open Reference.client None None "rb" (Some 3) = Ok (b "hello world!").
Proof.
  apply (@open_fd_roundtrip Reference.random Reference.keccak
           Reference.msgpack Reference.pre Reference.symmetric
           ReferenceSystem.files reference_random_laws
           reference_msgpack_laws reference_pre_laws reference_symmetric_laws
           Reference.client (b "hello world!") None "rb" 3
           0
           (snd (@encrypt Reference.random Reference.keccak Reference.msgpack
                   Reference.pre Reference.symmetric Reference.client
                   (b "hello world!") None 0))
           ReferenceSystem.stored_plain).
  - reflexivity.
  - vm_compute. reflexivity.
  - vm_compute. reflexivity.
  - discriminate.
  - reflexivity.
Defined.

Lemma open_failures_witness :
  open Reference.client None (Some (b "missing.bin")) "rb" None
  = Err ReferenceSystem.FileNotFoundError.
Proof.
  apply (proj1 (@open_failures _ _ _ _ _ _ Reference.client None
                  (Some (b "missing.bin")) "rb" None)).
  reflexivity.
Defined.

(** Text mode gives a str, which [decrypt] cannot read. *)
Example open_text_mode :
  open Reference.client None (Some (b "secret.bin")) "r" None = Err TypeError.
Proof. reflexivity. Qed.

Lemma pre_from_algorithm_kwargs_witness :
  exists kw,
    pre_from_algorithm default_algorithm =
      (module <- import_module "nkms.crypto.pre.bbs98" ;; module_PRE module kw)
    /\ (forall k v,
          In (k, v) kw <->
          In (k, v)
             [("cipher", VStr "bbs98"); ("curve", VInt 714);
              ("g", VBytes (b "1:A78WgHh03I38RcZO/FQe9SbmPVzQg+oehzR8QsGXOeqz"));
              ("m", VNone); ("n", VNone)]%string
          /\ k <> "cipher"%string /\ v <> VNone).
Proof.
  destruct (@pre_from_algorithm_kwargs ReferenceSystem.importer default_algorithm
              [("cipher", VStr "bbs98"); ("curve", VInt 714);
               ("g", VBytes (b "1:A78WgHh03I38RcZO/FQe9SbmPVzQg+oehzR8QsGXOeqz"));
               ("m", VNone); ("n", VNone)]%string "bbs98" eq_refl eq_refl)
    as (kw & Hcall & Hin & _).
  exists kw. split; [exact Hcall | exact Hin].
Defined.

(** The default algorithm: the modules imported and the arguments of
    [PRE]. *)
Example default_algorithm_choice :
  pre_from_algorithm default_algorithm
  = Ok ("nkms.crypto.pre.bbs98",
        [("curve", VInt 714);
         ("g", VBytes (b "1:A78WgHh03I38RcZO/FQe9SbmPVzQg+oehzR8QsGXOeqz"))])%string
  /\ symmetric_from_algorithm default_algorithm
     = Ok "nkms.crypto.block.nacl"%string.
Proof. split; reflexivity. Qed.

Lemma algorithm_lookup_errors_witness :
  pre_from_algorithm (VDict [("symmetric", VDict [("cipher", VStr "nacl")])]%string)
  = Err KeyError.
Proof.
  destruct (proj1 (@algorithm_lookup_errors ReferenceSystem.importer
                     [("symmetric", VDict [("cipher", VStr "nacl")])]%string)
              KeyError eq_refl) as [H _].
  exact H.
Defined.

Lemma decrypt_key_with_subpath_witness :
  exists enc_keys s',
    encrypt_key Reference.client (repeat x2a 32) None (Some (b "/foo/bar")) 0
    = (Ok (Keys enc_keys), s')
    /\ Forall2 (fun subpath enc_key =>
                  decrypt_key Reference.client enc_key None (Some subpath) None
                  = Ok (repeat x2a 32))
               (_split_path (b "/foo/bar")) enc_keys.
Proof.
  apply (@decrypt_key_with_subpath Reference.random Reference.keccak
           Reference.pre reference_pre_laws Reference.client).
  reflexivity.
Defined.

Lemma build_header_negative_version_witness :
  _build_header [] (-1) = Err OverflowError.
Proof.
  apply (@build_header_negative_version Reference.msgpack). lia.
Defined.
